(** * chatgptmanager: the [Chat] wrapper of [chatgpt.py]

    A shallow embedding of the class [Chat]: the conversation transcript,
    the response cache, the running fee and the cache shards on disk.

    Conventions of the embedding.
    - Python [str] is [string]: the UTF-8 text of the string, one [ascii]
      per byte.  [len] counts code points, the bytes that do not continue a
      multi-byte character.
    - Python dictionaries are stdpp [gmap]s.  A transcript entry is the
      dictionary the code builds, a [gmap string string].
    - Python floats are exact rationals [Q]: rounding is not modelled.
    - The provider ([openai.ChatCompletion.create], [openai.Embedding.create])
      and the clock ([pd.Timestamp('now')]) are outside the program; each
      operation takes them as arguments.
    - An operation is a state transformer on [World] (the object and the
      disk) that either returns a value or raises; the state reached at the
      moment an exception is raised is kept, as in Python. *)

From Stdlib Require Import QArith Ascii String.
From stdpp Require Import gmap strings list fin_maps.

Local Open Scope string_scope.

(** ** Data model *)

(** A transcript entry is the dictionary [{'role': r, 'content': c}]. *)
Definition mk_turn (role content : string) : gmap string string :=
  <["content" := content]> (<["role" := role]> ∅).

(** What [pickle.load] can produce from a file: a dictionary, or an object
    of some other type (named by [tag]). *)
Inductive pyobj :=
  | PyDict (d : gmap (string * string) string)
  | PyOther (tag : string).

(** A file on disk: the pickle of an object, or bytes that do not unpickle. *)
Inductive file :=
  | Pickled (o : pyobj)
  | Garbage.

(** A path: the directory and the file name in it. *)
Record path := { parent : string; name : string }.

#[global] Instance path_eq_dec : EqDecision path.
Proof. solve_decision. Defined.

(** The attributes of a [Chat] object. *)
Record Chat := {
  api_key : string;
  model_name : string;
  embedding_model_name : string;
  pricing_data : gmap string (gmap string Q);
  fee : Q;
  cache : gmap (string * string) string;
  savedir : string;
  chat_history : list (gmap string string);
  interactive : bool;
  auto_saveload : bool;
}.

(** The object and the disk.  The disk is a list of files, in the order in
    which a directory listing yields them; that the save directory exists
    ([mkdir(exist_ok=True)] in the constructor) is taken for granted. *)
Record World := { self : Chat; disk : list (path * file) }.

(** The exceptions the code can raise; [ProviderError] stands for whatever
    the provider's client library raises. *)
Inductive exn :=
  | KeyError (key : string)
  | AssertionError
  | IndexError
  | FileNotFoundError
  | UnpicklingError
  | ValueError
  | ProviderError (msg : string).

(** ** The monad of operations *)

(** How a Python call ends. *)
Inductive outcome (A : Type) :=
  | Return (a : A)
  | Raise (e : exn).
Arguments Return {A} a.
Arguments Raise {A} e.

Definition M (A : Type) : Type := World -> outcome A * World.

Definition ret {A} (a : A) : M A := fun w => (Return a, w).
Definition raise {A} (e : exn) : M A := fun w => (Raise e, w).
Definition bind {A B} (m : M A) (k : A -> M B) : M B :=
  fun w => match m w with
           | (Return a, w') => k a w'
           | (Raise e, w') => (Raise e, w')
           end.

Declare Scope py_scope.
Delimit Scope py_scope with py.
Notation "x <- m ;; k" := (bind m (fun x => k))
  (at level 100, m at next level, right associativity) : py_scope.
Notation "m ;;; k" := (bind m (fun _ => k))
  (at level 100, right associativity) : py_scope.
Local Open Scope py_scope.

Definition get {A} (f : Chat -> A) : M A := fun w => (Return (f (self w)), w).
Definition modify (f : Chat -> Chat) : M unit :=
  fun w => (Return tt, {| self := f (self w); disk := disk w |}).
Definition get_disk : M (list (path * file)) := fun w => (Return (disk w), w).
Definition put_disk (d : list (path * file)) : M unit :=
  fun w => (Return tt, {| self := self w; disk := d |}).
Definition when (b : bool) (m : M unit) : M unit := if b then m else ret tt.

(** Field assignments [self.f = v]. *)
Definition set_fee (v : Q) (c : Chat) : Chat :=
  {| api_key := api_key c; model_name := model_name c;
     embedding_model_name := embedding_model_name c;
     pricing_data := pricing_data c; fee := v; cache := cache c;
     savedir := savedir c; chat_history := chat_history c;
     interactive := interactive c; auto_saveload := auto_saveload c |}.
Definition set_cache (v : gmap (string * string) string) (c : Chat) : Chat :=
  {| api_key := api_key c; model_name := model_name c;
     embedding_model_name := embedding_model_name c;
     pricing_data := pricing_data c; fee := fee c; cache := v;
     savedir := savedir c; chat_history := chat_history c;
     interactive := interactive c; auto_saveload := auto_saveload c |}.
Definition set_chat_history (v : list (gmap string string)) (c : Chat) : Chat :=
  {| api_key := api_key c; model_name := model_name c;
     embedding_model_name := embedding_model_name c;
     pricing_data := pricing_data c; fee := fee c; cache := cache c;
     savedir := savedir c; chat_history := v;
     interactive := interactive c; auto_saveload := auto_saveload c |}.
Definition set_interactive (v : bool) (c : Chat) : Chat :=
  {| api_key := api_key c; model_name := model_name c;
     embedding_model_name := embedding_model_name c;
     pricing_data := pricing_data c; fee := fee c; cache := cache c;
     savedir := savedir c; chat_history := chat_history c;
     interactive := v; auto_saveload := auto_saveload c |}.

(** ** Pricing *)

(** The table the constructor installs. *)
Definition init_pricing_data : gmap string (gmap string Q) :=
  <["text-embedding-ada-002" := <["input" := 1.0e-7%Q]> ∅]>
  (<["gpt-4" := <["output" := 6.0e-5%Q]> (<["input" := 3.0e-5%Q]> ∅)]>
  (<["gpt-3.5-turbo" := <["output" := 2.0e-6%Q]> (<["input" := 1.5e-6%Q]> ∅)]> ∅)).

(** [d[k]] on a dictionary: the value, or [KeyError]. *)
Definition getitem {V} (d : gmap string V) (k : string) : M V :=
  match d !! k with
  | Some v => ret v
  | None => raise (KeyError k)
  end.

(** ** The disk *)

(** [s] ends with [suffix]. *)
Definition ends_with (suffix s : string) : bool :=
  let n := String.length suffix in
  let m := String.length s in
  (n <=? m)%nat && String.eqb (String.substring (m - n) n s) suffix.

(** [p] is listed by [dir.glob('*.pkl')]. *)
Definition in_glob (dir : string) (p : path) : bool :=
  String.eqb (parent p) dir && ends_with ".pkl" (name p).

(** [dir.glob('*.pkl')] *)
Definition glob_pkl (dir : string) (d : list (path * file)) : list path :=
  List.map fst (List.filter (fun pf => in_glob dir (fst pf)) d).

(** [open(p, "rb")]: the first file with this path. *)
Fixpoint disk_read (p : path) (d : list (path * file)) : option file :=
  match d with
  | [] => None
  | (q, f) :: d' => if decide (q = p) then Some f else disk_read p d'
  end.

(** [open(p, "wb")] and write: replace the file, or create it. *)
Fixpoint disk_write (p : path) (f : file) (d : list (path * file))
  : list (path * file) :=
  match d with
  | [] => [(p, f)]
  | (q, g) :: d' =>
      if decide (q = p) then (p, f) :: d' else (q, g) :: disk_write p f d'
  end.

(** ** Operations of [Chat] *)

(** [reset] *)
Definition reset : M unit := modify (set_chat_history []).

(** [save]: the clock supplies the formatted time stamp [now]. *)
Definition save (now : string) : M unit :=
  dir <- get savedir;;
  c <- get cache;;
  d <- get_disk;;
  put_disk (disk_write {| parent := dir; name := now ++ ".pkl" |}
                       (Pickled (PyDict c)) d).

(** [load(path)] with a path: the [else] branch. *)
Definition load_path (p : path) : M unit :=
  d <- get_disk;;
  match disk_read p d with
  | None => raise FileNotFoundError
  | Some Garbage => raise UnpicklingError
  | Some (Pickled (PyOther _)) => raise AssertionError
  | Some (Pickled (PyDict obj)) =>
      c <- get cache;;
      modify (set_cache (obj ∪ c))
  end.

(** [for x in l: body(x)]; an exception ends the loop. *)
Fixpoint for_each {A} (l : list A) (body : A -> M unit) : M unit :=
  match l with
  | [] => ret tt
  | x :: l' => body x;;; for_each l' body
  end.

(** [load(path=None)] *)
Definition load (p : option path) : M unit :=
  match p with
  | None =>
      dir <- get savedir;;
      d <- get_disk;;
      for_each (glob_pkl dir d) load_path
  | Some p => load_path p
  end.

Definition newline : string := String "010"%char EmptyString.

(** A list comprehension whose body may raise. *)
Fixpoint map_m {A B} (f : A -> M B) (l : list A) : M (list B) :=
  match l with
  | [] => ret []
  | x :: l' => y <- f x;; ys <- map_m f l';; ret (y :: ys)
  end.

(** [to_str] *)
Definition to_str : M string :=
  h <- get chat_history;;
  speech_strs <- map_m (fun speech =>
                          r <- getitem speech "role";;
                          c <- getitem speech "content";;
                          ret ("> " ++ r ++ ": " ++ newline ++ c)) h;;
  ret (String.concat (newline ++ newline) speech_strs).

(** [calculate_price]: the model's entry, then its two rates, are looked up
    in this order; each lookup may raise [KeyError]. *)
Definition calculate_price (input_tokens output_tokens : Q) : M Q :=
  pd <- get pricing_data;;
  mn <- get model_name;;
  pricing <- getitem pd mn;;
  rate_in <- getitem pricing "input";;
  rate_out <- getitem pricing "output";;
  ret (rate_in * input_tokens + rate_out * output_tokens)%Q.

(** A byte [10xxxxxx] continues a multi-byte character of UTF-8. *)
Definition is_continuation (c : ascii) : bool :=
  match c with
  | Ascii _ _ _ _ _ _ b6 b7 => b7 && negb b6
  end.

(** The number of code points of a text. *)
Fixpoint code_points (s : string) : nat :=
  match s with
  | EmptyString => 0
  | String c s' => (if is_continuation c then 0 else 1) + code_points s'
  end.

(** [len(s)] *)
Definition len (s : string) : Q := inject_Z (Z.of_nat (code_points s)).

(** [estimate_price] *)
Definition estimate_price (message : string) : M Q :=
  calculate_price (len message) (len message * 1.1 + 20)%Q.

(** *** The provider *)

(** The part of a chat completion the code reads:
    [completion["choices"][0]["message"]["content"]] and the two token
    counts of [completion["usage"]].  Token counts are counts: [N]. *)
Record completion := {
  content : string;
  prompt_tokens : N;
  completion_tokens : N;
}.

(** [openai.ChatCompletion.create(model, messages, temperature)]. *)
Definition chat_api : Type :=
  string -> list (gmap string string) -> Q -> outcome completion.

(** The part of an embedding reply the code reads: [usage.total_tokens] and
    the vectors of [data]. *)
Record embedding_reply := {
  total_tokens : N;
  data : list (list Q);
}.

(** [openai.Embedding.create(input, model)]. *)
Definition embedding_api : Type := list string -> string -> outcome embedding_reply.

Definition lift {A} (o : outcome A) : M A := fun w => (o, w).

(** A token count as a number the rates multiply. *)
Definition tokens (n : N) : Q := inject_Z (Z.of_N n).

Definition nilb {A} (l : list A) : bool :=
  match l with [] => true | _ => false end.

Definition append_history (t : gmap string string) : M unit :=
  modify (fun c => set_chat_history (chat_history c ++ [t])%list c).

(** *** [__call__] *)

(** [message] is the text [str(message)].  The two nested tests of the
    cache are one [match]: [Some res] is the early return, [None] is the
    fall through to the provider. *)
Definition call (create : chat_api) (now : string)
    (message : string) (temperature : Q) (temporary_interactive : bool)
  : M (string * Q) :=
  saved_param <- get interactive;;
  when temporary_interactive (modify (set_interactive true));;;
  itv <- get interactive;;
  when (negb itv) (modify (set_chat_history []));;;
  h <- get chat_history;;
  mn <- get model_name;;
  c <- get cache;;
  match (if nilb h && Qeq_bool temperature 0 then c !! (mn, message) else None) with
  | Some res =>
      append_history (mk_turn "user" message);;;
      append_history (mk_turn "assistant" res);;;
      ret (res, 0%Q)
  | None =>
      let my_message := mk_turn "user" message in
      completion <- lift (create mn (h ++ [my_message])%list temperature);;
      let res := content completion in
      append_history my_message;;;
      append_history (mk_turn "assistant" res);;;
      h' <- get chat_history;;
      when ((length h' =? 2)%nat && Qeq_bool temperature 0)
           (modify (fun s => set_cache (<[(model_name s, message) := res]> (cache s)) s));;;
      price <- calculate_price (tokens (prompt_tokens completion))
                               (tokens (completion_tokens completion));;
      modify (fun s => set_fee (fee s + price)%Q s);;;
      when temporary_interactive (modify (set_interactive saved_param));;;
      asl <- get auto_saveload;;
      when asl (save now);;;
      ret (res, price)
  end.

(** The request [summarize_and_clear_history] sends (its UTF-8 text). *)
Definition summary_request : string := "今までの会話を要約してください。".

(** [h[-2:]] *)
Definition last_two {A} (h : list A) : list A := drop (length h - 2) h.

(** [summarize_and_clear_history] *)
Definition summarize_and_clear_history (create : chat_api) (now : string)
  : M unit :=
  call create now summary_request 0 false;;;
  h <- get chat_history;;
  modify (set_chat_history (last_two h)).

(** *** [embedding] *)

(** The argument of [embedding]: a string (or any object that is not
    iterable, through [str]), or an iterable of items, each through [str]. *)
Inductive query :=
  | QStr (q : string)
  | QIter (items : list string).

(** [s.replace("\n", " ")] *)
Fixpoint replace_newline (s : string) : string :=
  match s with
  | EmptyString => EmptyString
  | String c s' =>
      String (if Ascii.eqb c "010"%char then " "%char else c) (replace_newline s')
  end.

(** The rows of a list of vectors have one length. *)
Definition rectangular (rows : list (list Q)) : bool :=
  match rows with
  | [] => true
  | v :: rows' => forallb (fun u => (length u =? length v)%nat) rows'
  end.

(** [np.array(rows)] on a list of vectors: numpy raises [ValueError] when
    the rows differ in length. *)
Definition np_array (rows : list (list Q)) : M (list (list Q)) :=
  if rectangular rows then ret rows else raise ValueError.

(** One vector ([vecs[0]]) or the array of all of them. *)
Inductive embedding_result :=
  | Vec (v : list Q)
  | Vecs (vs : list (list Q)).

(** [embedding]: the price is computed, then the array is built, then the
    fee is charged, then the result is indexed. *)
Definition embedding (create : embedding_api) (q : query)
  : M (embedding_result * Q) :=
  let multiple_query := match q with QIter _ => true | QStr _ => false end in
  let inputs := match q with
                | QIter items => List.map replace_newline items
                | QStr s => [replace_newline s]
                end in
  emn <- get embedding_model_name;;
  res <- lift (create inputs emn);;
  pd <- get pricing_data;;
  emn' <- get embedding_model_name;;
  pricing <- getitem pd emn';;
  rate <- getitem pricing "input";;
  let price := (tokens (total_tokens res) * rate)%Q in
  vecs <- np_array (data res);;
  modify (fun s => set_fee (fee s + price)%Q s);;;
  if multiple_query then ret (Vecs vecs, price)
  else match vecs with
       | v :: _ => ret (Vec v, price)
       | [] => raise IndexError
       end.

(** *** [__init__] *)

(** The constructor on a disk [d], with the defaults of the source left to
    the caller.  [Path("./chatgpt/")] is the directory [chatgpt]. *)
Definition init (key model emb_model : string) (itv asl : bool)
    (d : list (path * file)) : outcome unit * World :=
  let c := {| api_key := key; model_name := model;
              embedding_model_name := emb_model;
              pricing_data := init_pricing_data; fee := 0%Q; cache := ∅;
              savedir := "chatgpt"; chat_history := [];
              interactive := itv; auto_saveload := asl |} in
  when asl (load None) {| self := c; disk := d |}.

(** ** Operations as data, and the states a session can reach *)

Inductive op :=
  | OpReset
  | OpSave (now : string)
  | OpLoad (p : option path)
  | OpToStr
  | OpCalculatePrice (input_tokens output_tokens : Q)
  | OpEstimatePrice (message : string)
  | OpSummarize (create : chat_api) (now : string)
  | OpCall (create : chat_api) (now : string) (message : string)
           (temperature : Q) (temporary_interactive : bool)
  | OpEmbedding (create : embedding_api) (q : query).

(** The state an operation leaves behind, whether it returns or raises. *)
Definition exec {A} (m : M A) (w : World) : World := snd (m w).

Definition run_op (o : op) : World -> World :=
  match o with
  | OpReset => exec reset
  | OpSave now => exec (save now)
  | OpLoad p => exec (load p)
  | OpToStr => exec to_str
  | OpCalculatePrice i o => exec (calculate_price i o)
  | OpEstimatePrice m => exec (estimate_price m)
  | OpSummarize create now => exec (summarize_and_clear_history create now)
  | OpCall create now m t ti => exec (call create now m t ti)
  | OpEmbedding create q => exec (embedding create q)
  end.

(** A session: the constructor returns, then operations run one after the
    other (each may raise), while other programs may change the disk. *)
Inductive reachable : World -> Prop :=
  | reach_init key model emb itv asl d w :
      init key model emb itv asl d = (Return tt, w) -> reachable w
  | reach_op o w : reachable w -> reachable (run_op o w)
  | reach_disk d w : reachable w -> reachable {| self := self w; disk := d |}.

(** ** Vocabulary of the statements

    Pure descriptions of what the operations do, path by path; the lemmas
    below prove that the operations follow them. *)

(** What [calculate_price] returns or raises, as a function of the object. *)
Definition price_of (c : Chat) (input_tokens output_tokens : Q) : outcome Q :=
  match pricing_data c !! model_name c with
  | None => Raise (KeyError (model_name c))
  | Some pricing =>
      match pricing !! "input" with
      | None => Raise (KeyError "input")
      | Some rate_in =>
          match pricing !! "output" with
          | None => Raise (KeyError "output")
          | Some rate_out =>
              Return (rate_in * input_tokens + rate_out * output_tokens)%Q
          end
      end
  end.

(** The transcript the exchange starts from: cleared unless the call is
    interactive. *)
Definition entering_history (ti : bool) (c : Chat) : list (gmap string string) :=
  if ti || interactive c then chat_history c else [].

(** The object when the cache is consulted. *)
Definition enter (ti : bool) (c : Chat) : Chat :=
  set_chat_history (entering_history ti c)
    (set_interactive (ti || interactive c) c).

(** The test [(not self.chat_history) and (temperature == 0)]. *)
Definition cacheable (ti : bool) (c : Chat) (temperature : Q) : bool :=
  nilb (entering_history ti c) && Qeq_bool temperature 0.

(** The two entries of one turn. *)
Definition exchange (message res : string) : list (gmap string string) :=
  [mk_turn "user" message; mk_turn "assistant" res].

(** The object after the reply was recorded: transcript and cache. *)
Definition recorded (ti : bool) (c : Chat) (message : string) (temperature : Q)
    (res : string) : Chat :=
  let c1 := set_chat_history (entering_history ti c ++ exchange message res)%list
              (enter ti c) in
  if cacheable ti c temperature
  then set_cache (<[(model_name c, message) := res]> (cache c)) c1
  else c1.

(** The object after billing and after [interactive] was put back. *)
Definition billed (ti : bool) (c : Chat) (message : string) (temperature : Q)
    (res : string) (price : Q) : Chat :=
  let c2 := recorded ti c message temperature res in
  let c3 := set_fee (fee c + price)%Q c2 in
  if ti then set_interactive (interactive c) c3 else c3.

(** The disk after the [save] that ends a call. *)
Definition saved_disk (c : Chat) (now : string) (d : list (path * file))
  : list (path * file) :=
  if auto_saveload c
  then disk_write {| parent := savedir c; name := now ++ ".pkl" |}
                  (Pickled (PyDict (cache c))) d
  else d.

(** The four ways through [__call__]: answered from the cache; the
    provider raises; the price lookup raises; billed and returned. *)
Inductive call_path (create : chat_api) (now message : string)
    (temperature : Q) (ti : bool) (w : World)
  : outcome (string * Q) * World -> Prop :=
  | path_hit res :
      cacheable ti (self w) temperature = true ->
      cache (self w) !! (model_name (self w), message) = Some res ->
      call_path create now message temperature ti w
        (Return (res, 0%Q),
         {| self := set_chat_history (exchange message res) (enter ti (self w));
            disk := disk w |})
  | path_provider_error e :
      (cacheable ti (self w) temperature = true ->
       cache (self w) !! (model_name (self w), message) = None) ->
      create (model_name (self w))
        (entering_history ti (self w) ++ [mk_turn "user" message])%list
        temperature = Raise e ->
      call_path create now message temperature ti w
        (Raise e, {| self := enter ti (self w); disk := disk w |})
  | path_price_error comp e :
      (cacheable ti (self w) temperature = true ->
       cache (self w) !! (model_name (self w), message) = None) ->
      create (model_name (self w))
        (entering_history ti (self w) ++ [mk_turn "user" message])%list
        temperature = Return comp ->
      price_of (self w) (tokens (prompt_tokens comp))
        (tokens (completion_tokens comp)) = Raise e ->
      call_path create now message temperature ti w
        (Raise e,
         {| self := recorded ti (self w) message temperature (content comp);
            disk := disk w |})
  | path_billed comp price :
      (cacheable ti (self w) temperature = true ->
       cache (self w) !! (model_name (self w), message) = None) ->
      create (model_name (self w))
        (entering_history ti (self w) ++ [mk_turn "user" message])%list
        temperature = Return comp ->
      price_of (self w) (tokens (prompt_tokens comp))
        (tokens (completion_tokens comp)) = Return price ->
      let c := billed ti (self w) message temperature (content comp) price in
      call_path create now message temperature ti w
        (Return (content comp, price),
         {| self := c; disk := saved_disk c now (disk w) |}).

(** [self.pricing_data[self.embedding_model_name]["input"]]. *)
Definition embedding_rate (c : Chat) : outcome Q :=
  match pricing_data c !! embedding_model_name c with
  | None => Raise (KeyError (embedding_model_name c))
  | Some pricing =>
      match pricing !! "input" with
      | None => Raise (KeyError "input")
      | Some rate => Return rate
      end
  end.

(** The list [inputs] sent to the provider. *)
Definition embedding_inputs (q : query) : list string :=
  match q with
  | QIter items => List.map replace_newline items
  | QStr s => [replace_newline s]
  end.

(** The ways through [embedding]. *)
Inductive embedding_path (create : embedding_api) (q : query) (w : World)
  : outcome (embedding_result * Q) * World -> Prop :=
  | emb_provider_error e :
      create (embedding_inputs q) (embedding_model_name (self w)) = Raise e ->
      embedding_path create q w (Raise e, w)
  | emb_rate_error res e :
      create (embedding_inputs q) (embedding_model_name (self w)) = Return res ->
      embedding_rate (self w) = Raise e ->
      embedding_path create q w (Raise e, w)
  | emb_ragged res rate :
      create (embedding_inputs q) (embedding_model_name (self w)) = Return res ->
      embedding_rate (self w) = Return rate ->
      rectangular (data res) = false ->
      embedding_path create q w (Raise ValueError, w)
  | emb_billed res rate r :
      create (embedding_inputs q) (embedding_model_name (self w)) = Return res ->
      embedding_rate (self w) = Return rate ->
      rectangular (data res) = true ->
      let price := (tokens (total_tokens res) * rate)%Q in
      r = match q, data res with
          | QIter _, vs => Return (Vecs vs, price)
          | QStr _, v :: _ => Return (Vec v, price)
          | QStr _, [] => Raise IndexError
          end ->
      embedding_path create q w
        (r, {| self := set_fee (fee (self w) + price)%Q (self w);
               disk := disk w |}).

(** The fields that only the constructor assigns agree. *)
Record same_config (c c' : Chat) : Prop := {
  cfg_api_key : api_key c' = api_key c;
  cfg_model_name : model_name c' = model_name c;
  cfg_embedding_model_name : embedding_model_name c' = embedding_model_name c;
  cfg_pricing_data : pricing_data c' = pricing_data c;
  cfg_savedir : savedir c' = savedir c;
  cfg_auto_saveload : auto_saveload c' = auto_saveload c;
}.

(** A pricing entry with both rates. *)
Definition chat_rates (rate_in rate_out : Q) : gmap string Q :=
  <["output" := rate_out]> (<["input" := rate_in]> ∅).

(** The model names whose pricing entry has both rates. *)
Definition chat_model (mn : string) : bool :=
  String.eqb mn "gpt-3.5-turbo" || String.eqb mn "gpt-4".

(** The provider is consulted: the cache gives no answer for this call. *)
Definition cache_miss (ti : bool) (c : Chat) (message : string)
    (temperature : Q) : Prop :=
  cacheable ti c temperature = true ->
  cache c !! (model_name c, message) = None.

(** The dictionaries [load()] reads, in the order of the directory listing;
    [None] when some listed file is not a pickled dictionary. *)
Fixpoint read_shards (ps : list path) (d : list (path * file))
  : option (list (gmap (string * string) string)) :=
  match ps with
  | [] => Some []
  | p :: ps' =>
      match disk_read p d with
      | Some (Pickled (PyDict shard)) =>
          match read_shards ps' d with
          | Some shards => Some (shard :: shards)
          | None => None
          end
      | _ => None
      end
  end.

(** [cache |= shard], shard after shard. *)
Definition merge_all (c : gmap (string * string) string)
    (shards : list (gmap (string * string) string))
  : gmap (string * string) string :=
  foldl (fun acc shard => shard ∪ acc) c shards.

(** The files a [load] opens, in order: the given path, or the listing of
    the save directory. *)
Definition load_targets (p : option path) (w : World) : list path :=
  match p with
  | Some p => [p]
  | None => glob_pkl (savedir (self w)) (disk w)
  end.

(** The dictionaries a [load] over the files [ps] merges: those of the
    files up to the first one that is not a pickled dictionary, where the
    load raises. *)
Fixpoint shards_read (ps : list path) (d : list (path * file))
  : list (gmap (string * string) string) :=
  match ps with
  | [] => []
  | p :: ps' =>
      match disk_read p d with
      | Some (Pickled (PyDict shard)) => shard :: shards_read ps' d
      | _ => []
      end
  end.

(** An entry with exactly the keys 'role' and 'content', and this role. *)
Definition is_turn (role : string) (t : gmap string string) : Prop :=
  dom t = ({["role"; "content"]} : gset string) /\ t !! "role" = Some role.

(** User and assistant entries alternate, a user entry first. *)
Definition alternates (h : list (gmap string string)) : Prop :=
  forall i t,
    h !! i = Some t ->
    is_turn (if Nat.even i then "user" else "assistant") t.

(** The transcript is a sequence of exchanges. *)
Inductive paired : list (gmap string string) -> Prop :=
  | paired_nil : paired []
  | paired_snoc h m r : paired h -> paired (h ++ exchange m r).

(** ** Example session data *)

Definition example_reply : completion :=
  {| content := "hello"; prompt_tokens := 3; completion_tokens := 5 |}.

Definition provider_ok : chat_api := fun _ _ _ => Return example_reply.
Definition provider_down : chat_api :=
  fun _ _ _ => Raise (ProviderError "timeout").

Definition example_chat (model : string) (itv : bool)
    (h : list (gmap string string)) (ca : gmap (string * string) string)
  : Chat :=
  {| api_key := "sk"; model_name := model;
     embedding_model_name := "text-embedding-ada-002";
     pricing_data := init_pricing_data; fee := 0%Q; cache := ca;
     savedir := "chatgpt"; chat_history := h;
     interactive := itv; auto_saveload := false |}.

Definition example_world (model : string) (itv : bool)
    (h : list (gmap string string)) (ca : gmap (string * string) string)
  : World :=
  {| self := example_chat model itv h ca; disk := [] |}.

Definition hi_cache : gmap (string * string) string :=
  <[("gpt-4", "hi") := "hello"]> ∅.

Definition notes_pkl : path := {| parent := "chatgpt"; name := "notes.pkl" |}.

Definition old_exchange : list (gmap string string) := exchange "q" "a".

Definition shard_pkl : path :=
  {| parent := "chatgpt"; name := "20230801120000.pkl" |}.

Definition shard_world : World :=
  {| self := example_chat "gpt-4" true [] ∅;
     disk := [(shard_pkl, Pickled (PyDict hi_cache))] |}.

Definition newer_pkl : path :=
  {| parent := "chatgpt"; name := "20230802090000.pkl" |}.

Definition two_shard_world : World :=
  {| self := example_chat "gpt-4" true [] (<[("gpt-4", "bye") := "ciao"]> ∅);
     disk := [(shard_pkl, Pickled (PyDict hi_cache));
              (notes_pkl, Pickled (PyDict ∅));
              ({| parent := "elsewhere"; name := "x.pkl" |}, Garbage);
              (newer_pkl,
               Pickled (PyDict (<[("gpt-4", "hi") := "hello again"]> ∅)))] |}.

(** A session with interactive mode off: one question, then [reset]. *)
Definition asked_once : World :=
  run_op OpReset
    (run_op (OpCall provider_ok "20230801120000" "hi" 0 false)
       (example_world "gpt-4" false [] ∅)).

(** ** Further vocabulary *)

(** The file [save] writes: [savedir / f"{now}.pkl"]. *)
Definition save_path (c : Chat) (now : string) : path :=
  {| parent := savedir c; name := now ++ ".pkl" |}.

(** One entry as [to_str] prints it. *)
Definition render_turn (role content : string) : string :=
  "> " ++ role ++ ": " ++ newline ++ content.

(** [t] is printed as [s]. *)
Definition rendered (t : gmap string string) (s : string) : Prop :=
  exists role content,
    t !! "role" = Some role /\ t !! "content" = Some content /\
    s = render_turn role content.

(** The body of the comprehension in [to_str]. *)
Definition print_speech (speech : gmap string string) : M string :=
  r <- getitem speech "role";;
  c <- getitem speech "content";;
  ret ("> " ++ r ++ ": " ++ newline ++ c).

(** [s] contains a newline. *)
Fixpoint has_newline (s : string) : bool :=
  match s with
  | EmptyString => false
  | String c s' => Ascii.eqb c "010"%char || has_newline s'
  end.

Definition one_vector : embedding_api :=
  fun _ _ => Return {| total_tokens := 4; data := [[0.5; 0.25]%Q] |}.

Definition ragged_vectors : embedding_api :=
  fun _ _ => Return {| total_tokens := 4; data := [[0.5; 0.25]%Q; [0.5]%Q] |}.

Definition no_vector : embedding_api :=
  fun _ _ => Return {| total_tokens := 4; data := [] |}.

(** The object the constructor builds, given the cache it loaded. *)
Definition fresh_chat (key model emb_model : string) (itv asl : bool)
    (ca : gmap (string * string) string) : Chat :=
  {| api_key := key; model_name := model; embedding_model_name := emb_model;
     pricing_data := init_pricing_data; fee := 0%Q; cache := ca;
     savedir := "chatgpt"; chat_history := [];
     interactive := itv; auto_saveload := asl |}.

(** ** The module loader of [test/codingtools.py]

    The loader is a sequence of calls into [pathlib], [importlib] and the
    file system, and it executes the loaded modules.  Each such call is an
    arbitrary action on the interpreter state: it may change the state and
    it may raise.  The two functions are embedded over these actions; a
    local variable that may be unbound is an [option]. *)
Module CodingTools.

Inductive error :=
  | AssertionError (msg : string)
  | UnboundLocalError (variable : string)
  | LibraryError (msg : string).

Section Loader.
Context {state fspath spec module : Type}.

(** An action: a result or an exception, and the state it leaves. *)
Definition action (A : Type) : Type := state -> (error + A) * state.

Definition pure {A} (a : A) : action A := fun s => (inr a, s).
Definition throw {A} (e : error) : action A := fun s => (inl e, s).
Definition andthen {A B} (m : action A) (k : A -> action B) : action B :=
  fun s => match m s with
           | (inr a, s') => k a s'
           | (inl e, s') => (inl e, s')
           end.

(** What the code calls. *)
Record library := {
  (** [Path(p).absolute().resolve()] *)
  resolve : fspath -> action fspath;
  (** [p.name], [p.parent], [p.stem], [p.suffix], [p / child] *)
  name : fspath -> string;
  parent : fspath -> fspath;
  stem : fspath -> string;
  suffix : fspath -> string;
  joinpath : fspath -> string -> fspath;
  (** [p.is_dir()], [p.is_file()], [p.exists()], [p.iterdir()] *)
  is_dir : fspath -> action bool;
  is_file : fspath -> action bool;
  exists_ : fspath -> action bool;
  iterdir : fspath -> action (list fspath);
  (** [importlib.util.spec_from_file_location(name, path)] *)
  spec_from_file_location : string -> fspath -> action (option spec);
  (** [importlib.util.module_from_spec(spec)] *)
  module_from_spec : spec -> action module;
  (** [sys.modules[name] = module] *)
  set_sys_modules : string -> module -> action unit;
  (** [spec.loader.exec_module(module)] *)
  exec_module : spec -> module -> action unit;
  (** [setattr(module, name, value)] *)
  setattr : module -> string -> module -> action unit;
}.

Context (L : library).

Definition create_module_from_path (module_path : fspath) : action module :=
  andthen (resolve L module_path) (fun module_path =>
  let module_name :=
    if String.eqb (name L module_path) "__init__.py"
    then stem L (parent L module_path) ++ ".py"
    else stem L module_path ++ ".py" in
  andthen (spec_from_file_location L module_name module_path) (fun sp =>
  match sp with
  | None => throw (AssertionError "load failed")
  | Some sp =>
      andthen (module_from_spec L sp) (fun new_module =>
      andthen (set_sys_modules L module_name new_module) (fun _ =>
      andthen (exec_module L sp new_module) (fun _ =>
      pure new_module)))
  end)).

(** Reading a local variable. *)
Definition local {A} (variable : string) (v : option A) : action A :=
  match v with
  | Some a => pure a
  | None => throw (UnboundLocalError variable)
  end.

(** The body of the loop over [base_dir.iterdir()]. *)
Definition load_item (new_module : option module) (item : fspath)
  : action unit :=
  andthen (is_file L item) (fun f =>
  if f && String.eqb (suffix L item) ".py"
       && negb (String.eqb (stem L item) "__init__")
  then
    andthen (create_module_from_path item) (fun module =>
    andthen (local "new_module" new_module) (fun pkg =>
    setattr L pkg (stem L item) module))
  else
    andthen (is_dir L item) (fun d =>
    andthen (if d then exists_ L (joinpath L item "__init__.py")
             else pure false) (fun e =>
    if d && e
    then
      andthen (create_module_from_path (joinpath L item "__init__.py"))
        (fun module =>
      andthen (local "new_module" new_module) (fun pkg =>
      setattr L pkg (stem L item) module))
    else pure tt))).

Fixpoint load_items (new_module : option module) (items : list fspath)
  : action unit :=
  match items with
  | [] => pure tt
  | item :: items' =>
      andthen (load_item new_module item) (fun _ =>
      load_items new_module items')
  end.

Definition create_module_from_dir (base_dir : fspath) : action module :=
  andthen (is_dir L base_dir) (fun d =>
  if negb d then throw (AssertionError "")
  else
    let init_path := joinpath L base_dir "__init__.py" in
    andthen (exists_ L init_path) (fun e =>
    andthen (if e
             then andthen (create_module_from_path init_path)
                    (fun m => pure (Some m))
             else pure None) (fun new_module =>
    andthen (iterdir L base_dir) (fun items =>
    andthen (load_items new_module items) (fun _ =>
    local "new_module" new_module))))).

(** No call into the library raises, and every file has an import spec. *)
Record never_raises : Prop := {
  nr_resolve p s : exists q, (resolve L p s).1 = inr q;
  nr_is_dir p s : exists b, (is_dir L p s).1 = inr b;
  nr_is_file p s : exists b, (is_file L p s).1 = inr b;
  nr_exists p s : exists b, (exists_ L p s).1 = inr b;
  nr_iterdir p s : exists l, (iterdir L p s).1 = inr l;
  nr_spec n p s : exists sp, (spec_from_file_location L n p s).1 = inr (Some sp);
  nr_module sp s : exists m, (module_from_spec L sp s).1 = inr m;
  nr_sys n m s : (set_sys_modules L n m s).1 = inr tt;
  nr_exec sp m s : (exec_module L sp m s).1 = inr tt;
  nr_setattr m n v s : (setattr L m n v s).1 = inr tt;
}.

End Loader.

Arguments library : clear implicits.

(** A toy interpreter for examples: paths, specs and modules are strings,
    the state is the list of names registered in [sys.modules], the
    directory [pkg] holds the single file [a.py] and, when [with_init],
    the file [__init__.py]. *)
Definition toy_library (with_init : bool)
  : library (list string) string string string :=
  {| resolve := fun p => pure p;
     name := fun p =>
       if String.eqb p "pkg/__init__.py" then "__init__.py" else p;
     parent := fun _ => "pkg";
     stem := fun p => if String.eqb p "pkg/a.py" then "a" else p;
     suffix := fun p => if String.eqb p "pkg/a.py" then ".py" else "";
     joinpath := fun p child => p ++ "/" ++ child;
     is_dir := fun p => pure (String.eqb p "pkg");
     is_file := fun p => pure (negb (String.eqb p "pkg"));
     exists_ := fun p => pure (String.eqb p "pkg/a.py" ||
                               (with_init && String.eqb p "pkg/__init__.py"));
     iterdir := fun _ =>
       pure (if with_init then ["pkg/__init__.py"; "pkg/a.py"]
             else ["pkg/a.py"]);
     spec_from_file_location := fun n _ => pure (Some n);
     module_from_spec := fun sp => pure sp;
     set_sys_modules := fun n _ => fun s => (inr tt, n :: s);
     exec_module := fun _ _ => pure tt;
     setattr := fun _ _ _ => pure tt |}.

End CodingTools.

(** ** Proof tools *)

Ltac unfold_ops :=
  unfold exec, call, summarize_and_clear_history, embedding, estimate_price,
    calculate_price, save, load_path, reset, append_history, getitem,
    bind, get, modify, get_disk, put_disk, when, ret, raise, lift in *.

(** Running the monad one statement at a time. *)
Lemma bind_ret {A B} (a : A) (k : A -> M B) w : bind (ret a) k w = k a w.
Proof. reflexivity. Qed.

Lemma bind_raise {A B} e (k : A -> M B) w : bind (raise e) k w = (Raise e, w).
Proof. reflexivity. Qed.

Lemma bind_get {A B} (f : Chat -> A) (k : A -> M B) w :
  bind (get f) k w = k (f (self w)) w.
Proof. reflexivity. Qed.

Lemma bind_modify {B} f (k : unit -> M B) w :
  bind (modify f) k w = k tt {| self := f (self w); disk := disk w |}.
Proof. reflexivity. Qed.

Lemma bind_get_disk {B} (k : _ -> M B) w : bind get_disk k w = k (disk w) w.
Proof. reflexivity. Qed.

Lemma bind_lift {A B} (o : outcome A) (k : A -> M B) w :
  bind (lift o) k w = match o with
                      | Return a => k a w
                      | Raise e => (Raise e, w)
                      end.
Proof. by destruct o. Qed.

Ltac run :=
  repeat first
    [ rewrite bind_get | rewrite bind_modify | rewrite bind_ret
    | rewrite bind_raise | rewrite bind_get_disk | rewrite bind_lift
    | progress cbn [when self disk fee cache chat_history interactive
                    model_name embedding_model_name api_key pricing_data
                    savedir auto_saveload set_fee set_cache
                    set_chat_history set_interactive negb andb orb nilb] ].

(** *** What [calculate_price] computes, as a function of the object *)

Lemma calculate_price_eq i o w :
  calculate_price i o w = (price_of (self w) i o, w).
Proof.
  unfold price_of. unfold_ops.
  destruct (pricing_data (self w) !! model_name (self w)) as [pr|]; [|done].
  destruct (pr !! "input"); [|done].
  by destruct (pr !! "output").
Qed.

(** *** The paths through [__call__] *)

Lemma length_app_pair {A} (h : list A) a b :
  (length (h ++ [a; b]) =? 2)%nat = nilb h.
Proof.
  destruct h as [|x h]; [done|]. cbn. rewrite length_app. cbn.
  apply Nat.eqb_neq. lia.
Qed.

Lemma length_cons_app_pair {A} (x : A) h a b :
  (length (x :: h ++ [a; b]) =? 2)%nat = false.
Proof. apply (length_app_pair (x :: h)). Qed.

Lemma length_pair {A} (a b : A) : (length [a; b] =? 2)%nat = true.
Proof. reflexivity. Qed.

Lemma bind_calculate_price {B} i o (k : Q -> M B) w :
  bind (calculate_price i o) k w =
  match price_of (self w) i o with
  | Return p => k p w
  | Raise e => (Raise e, w)
  end.
Proof. unfold bind. rewrite calculate_price_eq. by destruct price_of. Qed.

Lemma save_eq now w :
  save now w =
  (Return tt,
   {| self := self w;
      disk := disk_write {| parent := savedir (self w); name := now ++ ".pkl" |}
                (Pickled (PyDict (cache (self w)))) (disk w) |}).
Proof. reflexivity. Qed.

Lemma bind_save {B} now (k : unit -> M B) w :
  bind (save now) k w =
  k tt {| self := self w;
          disk := disk_write {| parent := savedir (self w); name := now ++ ".pkl" |}
                    (Pickled (PyDict (cache (self w)))) (disk w) |}.
Proof. reflexivity. Qed.

Lemma call_paths create now message temperature ti w :
  call_path create now message temperature ti w
    (call create now message temperature ti w).
Proof.
  destruct w as [c d]; destruct c as [ak mn emn pd f ca sd h itv asl].
  unfold call, append_history.
  destruct ti, itv, asl, h as [|x h]; run;
    destruct (Qeq_bool temperature 0) eqn:Ht; run.
  all: repeat first
    [ progress run
    | rewrite bind_calculate_price
    | rewrite bind_save
    | rewrite <- app_assoc
    | rewrite length_cons_app_pair
    | rewrite length_pair
    | progress cbn [app]
    | match goal with
      | |- context [match ?x with Some _ => _ | None => _ end] =>
          destruct x eqn:?
      | |- context [match ?x with Return _ => _ | Raise _ => _ end] =>
          destruct x eqn:?
      end ].
  all: unfold ret.
  all: match goal with
       | |- call_path ?c ?n ?m ?t ?ti ?w _ =>
           pose proof (path_hit c n m t ti w) as Phit;
           pose proof (path_provider_error c n m t ti w) as Perr;
           pose proof (path_price_error c n m t ti w) as Pprice;
           pose proof (path_billed c n m t ti w) as Pbill
       end.
  all: unfold billed, recorded, saved_disk, cacheable, enter, entering_history,
         exchange in Phit, Perr, Pprice, Pbill.
  all: cbn [self disk fee cache chat_history interactive model_name
            savedir auto_saveload negb andb orb nilb app]
         in Phit, Perr, Pprice, Pbill.
  all: rewrite ?Ht in Phit, Perr, Pprice, Pbill.
  all: first [ by eapply Phit | by eapply Perr | by eapply Pprice
             | by eapply Pbill ].
Qed.

Lemma set_cache_same c : set_cache (cache c) c = c.
Proof. by destruct c. Qed.

Lemma world_eta w : {| self := self w; disk := disk w |} = w.
Proof. by destruct w. Qed.

(** *** [load] *)

Lemma load_path_eq p w :
  load_path p w =
  match disk_read p (disk w) with
  | None => (Raise FileNotFoundError, w)
  | Some Garbage => (Raise UnpicklingError, w)
  | Some (Pickled (PyOther _)) => (Raise AssertionError, w)
  | Some (Pickled (PyDict obj)) =>
      (Return tt,
       {| self := set_cache (obj ∪ cache (self w)) (self w); disk := disk w |})
  end.
Proof.
  unfold load_path. run.
  destruct (disk_read p (disk w)) as [[[obj|tag]|]|]; by run.
Qed.

(** [load] touches nothing but the cache. *)
Lemma load_path_footprint p w :
  (load_path p w).2 =
  {| self := set_cache (cache (self (load_path p w).2)) (self w);
     disk := disk w |}.
Proof.
  rewrite load_path_eq.
  destruct (disk_read p (disk w)) as [[[obj|tag]|]|]; cbn;
    by rewrite ?set_cache_same, ?world_eta.
Qed.

Lemma for_each_load_footprint ps w :
  (for_each ps load_path w).2 =
  {| self := set_cache (cache (self (for_each ps load_path w).2)) (self w);
     disk := disk w |}.
Proof.
  revert w. induction ps as [|p ps IH]; intros w; cbn.
  - by rewrite set_cache_same, world_eta.
  - unfold bind. pose proof (load_path_footprint p w) as Hp.
    destruct (load_path p w) as [[[]|e] w1]; cbn in *.
    + rewrite IH. rewrite Hp at 2 3. by cbn.
    + exact Hp.
Qed.

Lemma load_footprint p w :
  (load p w).2 =
  {| self := set_cache (cache (self (load p w).2)) (self w); disk := disk w |}.
Proof.
  destruct p as [p|]; cbn.
  - apply load_path_footprint.
  - unfold load. run. apply for_each_load_footprint.
Qed.

(** *** [embedding] *)

Lemma embedding_paths create q w :
  embedding_path create q w (embedding create q w).
Proof.
  unfold embedding. fold (embedding_inputs q). run.
  destruct (create _ _) as [res|e] eqn:Hcr; [|by apply emb_provider_error].
  run. unfold getitem.
  destruct (pricing_data (self w) !! embedding_model_name (self w))
    as [pr|] eqn:Hpr.
  2: { run. eapply emb_rate_error; [done|]. unfold embedding_rate.
       by rewrite Hpr. }
  run. destruct (pr !! "input") as [rate|] eqn:Hrate.
  2: { run. eapply emb_rate_error; [done|]. unfold embedding_rate.
       by rewrite Hpr, Hrate. }
  run.
  assert (Hrt : embedding_rate (self w) = Return rate).
  { unfold embedding_rate. by rewrite Hpr, Hrate. }
  unfold np_array. destruct (rectangular (data res)) eqn:Hrect; run.
  2: { by eapply (emb_ragged create _ w res rate). }
  destruct q as [s|items]; [destruct (data res) as [|v vs] eqn:Hd|];
    unfold ret, raise;
    eapply (emb_billed create _ w res rate); try done; by rewrite ?Hd.
Qed.

(** ** Frame: the fields no operation assigns *)

Lemma same_config_refl c : same_config c c.
Proof. by split. Qed.

Lemma same_config_trans c1 c2 c3 :
  same_config c1 c2 -> same_config c2 c3 -> same_config c1 c3.
Proof. intros [] []. split; congruence. Qed.

(** Case analysis on the path a call takes. *)
Ltac call_cases create now m t ti w :=
  let H := fresh "Hpath" in
  let out := fresh "out" in
  pose proof (call_paths create now m t ti w) as H;
  remember (call create now m t ti w) as out;
  destruct H;
  unfold billed, recorded, enter in *.

Lemma call_config create now m t ti w :
  same_config (self w) (self (call create now m t ti w).2).
Proof.
  call_cases create now m t ti w; cbn.
  - by split.
  - by split.
  - destruct (cacheable _ _ _); by split.
  - subst c. unfold billed, recorded.
    destruct ti, (cacheable _ _ _); by split.
Qed.

Lemma embedding_config create q w :
  same_config (self w) (self (embedding create q w).2).
Proof.
  pose proof (embedding_paths create q w) as H.
  remember (embedding create q w) as out. destruct H; by split.
Qed.

Lemma load_config p w : same_config (self w) (self (load p w).2).
Proof. rewrite load_footprint. by split. Qed.

Lemma to_str_state w : (to_str w).2 = w.
Proof.
  unfold to_str. run.
  assert (Hm : forall f h, (forall x w0, (f x w0).2 = w0) ->
            forall w0, (@map_m (gmap string string) string f h w0).2 = w0).
  { intros f h Hf. induction h as [|x h IH]; intros w0; [done|].
    cbn. unfold bind. specialize (Hf x w0).
    destruct (f x w0) as [[y|e] w1]; cbn in *; subst; [|done].
    specialize (IH w0). destruct (map_m f h w0) as [[ys|e] w1]; by cbn in *. }
  unfold bind at 1.
  match goal with |- context [map_m ?f ?h w] =>
    pose proof (Hm f h) as Hs end.
  lapply Hs.
  - intros Hw. specialize (Hw w).
    destruct (map_m _ _ w) as [[ys|e] w1]; by cbn in *.
  - intros x w0. unfold getitem.
    destruct (x !! "role"); run; [|done].
    by destruct (x !! "content"); run.
Qed.

Lemma calculate_price_state i o w : (calculate_price i o w).2 = w.
Proof. by rewrite calculate_price_eq. Qed.

Lemma summarize_eq create now w :
  summarize_and_clear_history create now w =
  match call create now summary_request 0 false w with
  | (Return _, w') =>
      (Return tt,
       {| self := set_chat_history (last_two (chat_history (self w'))) (self w');
          disk := disk w' |})
  | (Raise e, w') => (Raise e, w')
  end.
Proof.
  unfold summarize_and_clear_history, bind.
  by destruct (call _ _ _ _ _ w) as [[r|e] w'].
Qed.

Lemma run_op_config o w : same_config (self w) (self (run_op o w)).
Proof.
  destruct o; unfold run_op, exec.
  - by split.
  - by split.
  - apply load_config.
  - rewrite to_str_state. apply same_config_refl.
  - rewrite calculate_price_state. apply same_config_refl.
  - unfold estimate_price. rewrite calculate_price_state.
    apply same_config_refl.
  - rewrite summarize_eq.
    pose proof (call_config create now summary_request 0 false w) as Hc.
    destruct (call _ _ _ _ _ w) as [[r|e] w']; cbn in *; [|done].
    destruct Hc. by split.
  - apply call_config.
  - apply embedding_config.
Qed.

(** In every state of a session the pricing table is the one the
    constructor installed. *)
Lemma reachable_pricing w :
  reachable w -> pricing_data (self w) = init_pricing_data.
Proof.
  induction 1 as [key model emb itv asl d w Hinit|o w Hw IH|d w Hw IH].
  - unfold init in Hinit. destruct asl; cbn [when] in Hinit.
    + match type of Hinit with load None ?w0 = _ =>
        pose proof (load_config None w0) as Hc end.
      rewrite Hinit in Hc. by destruct Hc.
    + by inversion Hinit.
  - destruct (run_op_config o w). congruence.
  - done.
Qed.

(** ** The pricing table *)

Lemma init_pricing_lookup mn :
  init_pricing_data !! mn =
  if decide (mn = "text-embedding-ada-002")
  then Some (<["input" := 1.0e-7%Q]> ∅)
  else if decide (mn = "gpt-4") then Some (chat_rates 3.0e-5 6.0e-5)
  else if decide (mn = "gpt-3.5-turbo") then Some (chat_rates 1.5e-6 2.0e-6)
  else None.
Proof.
  unfold init_pricing_data, chat_rates.
  rewrite !lookup_insert, lookup_empty.
  repeat case_decide; congruence.
Qed.

Lemma chat_model_spec mn :
  chat_model mn = true <-> mn = "gpt-3.5-turbo" \/ mn = "gpt-4".
Proof.
  unfold chat_model. rewrite orb_true_iff, !String.eqb_eq. tauto.
Qed.

(** Every rate of the table is non-negative. *)
Lemma init_rates_nonneg mn pricing k rate :
  init_pricing_data !! mn = Some pricing ->
  pricing !! k = Some rate ->
  (0 <= rate)%Q.
Proof.
  rewrite init_pricing_lookup. unfold chat_rates.
  repeat case_decide; intros [= <-]; rewrite ?lookup_insert, ?lookup_empty;
    repeat case_decide; intros [= <-]; by vm_compute.
Qed.

Lemma tokens_nonneg n : (0 <= tokens n)%Q.
Proof. unfold tokens, Qle. cbn. lia. Qed.

Lemma price_of_nonneg c i o p :
  pricing_data c = init_pricing_data ->
  (0 <= i)%Q -> (0 <= o)%Q ->
  price_of c i o = Return p -> (0 <= p)%Q.
Proof.
  intros Hpd Hi Ho. unfold price_of. rewrite Hpd.
  destruct (init_pricing_data !! model_name c) as [pr|] eqn:Hpr; [|done].
  destruct (pr !! "input") as [ri|] eqn:Hin; [|done].
  destruct (pr !! "output") as [ro|] eqn:Hout; [|done].
  intros [= <-].
  pose proof (init_rates_nonneg _ _ _ _ Hpr Hin).
  pose proof (init_rates_nonneg _ _ _ _ Hpr Hout).
  apply (Qplus_le_compat 0 _ 0); by apply Qmult_le_0_compat.
Qed.

Lemma embedding_rate_nonneg c rate :
  pricing_data c = init_pricing_data ->
  embedding_rate c = Return rate -> (0 <= rate)%Q.
Proof.
  intros Hpd. unfold embedding_rate. rewrite Hpd.
  destruct (init_pricing_data !! embedding_model_name c) as [pr|] eqn:Hpr;
    [|done].
  destruct (pr !! "input") as [ri|] eqn:Hin; [|done].
  intros [= <-]. eapply init_rates_nonneg; eauto.
Qed.

Lemma fee_grows (f p : Q) : (0 <= p)%Q -> (f <= f + p)%Q.
Proof.
  intros Hp. rewrite <- (Qplus_0_r f) at 1.
  apply Qplus_le_compat; [apply Qle_refl | done].
Qed.

(** What the price lookup does for each model name, on the constructor's
    table. *)
Lemma price_of_chat_model c i o :
  pricing_data c = init_pricing_data ->
  chat_model (model_name c) = true ->
  exists rate_in rate_out,
    price_of c i o = Return (rate_in * i + rate_out * o)%Q.
Proof.
  intros Hpd Hm. apply chat_model_spec in Hm.
  unfold price_of. rewrite Hpd, init_pricing_lookup.
  destruct Hm as [-> | ->]; cbn; eauto.
Qed.

Lemma price_of_other_model c i o :
  pricing_data c = init_pricing_data ->
  chat_model (model_name c) = false ->
  price_of c i o =
  Raise (KeyError (if decide (model_name c = "text-embedding-ada-002")
                   then "output" else model_name c)).
Proof.
  intros Hpd Hm. apply not_true_iff_false in Hm.
  rewrite chat_model_spec in Hm.
  unfold price_of. rewrite Hpd, init_pricing_lookup.
  repeat case_decide; try done; tauto.
Qed.

(** A freshly constructed object is a session state. *)
Lemma fresh_reachable model itv :
  reachable (example_world model itv [] ∅).
Proof. by apply (reach_init "sk" model "text-embedding-ada-002" itv false []). Qed.

(** ** Cache hits *)

(** C1. A call on an empty transcript, with temperature 0 and the key
    (current model name, message) in the cache, returns the cached text
    with price 0 and leaves the accumulated fee unchanged. *)
Theorem call_cache_hit create now message temperature ti w res :
  chat_history (self w) = [] ->
  (temperature == 0)%Q ->
  cache (self w) !! (model_name (self w), message) = Some res ->
  (call create now message temperature ti w).1 = Return (res, 0%Q) /\
  fee (self (call create now message temperature ti w).2) = fee (self w).
Proof.
  intros Hh Ht Hc. apply Qeq_bool_iff in Ht.
  assert (Hcb : cacheable ti (self w) temperature = true).
  { unfold cacheable, entering_history. rewrite Hh, Ht.
    by destruct (ti || interactive (self w)). }
  call_cases create now message temperature ti w; cbn.
  - split; [congruence | done].
  - match goal with H : _ -> _ = None |- _ => specialize (H Hcb) end.
    congruence.
  - match goal with H : _ -> _ = None |- _ => specialize (H Hcb) end.
    congruence.
  - match goal with H : _ -> _ = None |- _ => specialize (H Hcb) end.
    congruence.
Qed.

Lemma call_cache_hit_witness :
  (call provider_down "20230801120000" "hi" 0 false
     (example_world "gpt-4" true [] hi_cache)).1 = Return ("hello", 0%Q) /\
  fee (self (call provider_down "20230801120000" "hi" 0 false
               (example_world "gpt-4" true [] hi_cache)).2) = 0%Q.
Proof.
  apply (call_cache_hit provider_down "20230801120000" "hi" 0 false
           (example_world "gpt-4" true [] hi_cache) "hello").
  - reflexivity.
  - reflexivity.
  - reflexivity.
Defined.

(** ** Price lookups *)

(** C8. On the constructor's pricing table, [calculate_price], and with it
    [estimate_price] and the billing step of [__call__], raises [KeyError]
    whenever the current model is neither 'gpt-3.5-turbo' nor 'gpt-4'; for
    'text-embedding-ada-002' the missing key is 'output'.  For the two chat
    models the lookups succeed and a price is returned. *)
Theorem calculate_price_key_error w :
  reachable w ->
  (model_name (self w) <> "gpt-3.5-turbo" ->
   model_name (self w) <> "gpt-4" ->
   exists k,
     (forall i o, calculate_price i o w = (Raise (KeyError k), w)) /\
     (forall message, estimate_price message w = (Raise (KeyError k), w)) /\
     (forall create now message temperature ti comp,
         cache_miss ti (self w) message temperature ->
         create (model_name (self w))
           (entering_history ti (self w) ++ [mk_turn "user" message])%list
           temperature = Return comp ->
         (call create now message temperature ti w).1 = Raise (KeyError k)) /\
     (model_name (self w) = "text-embedding-ada-002" -> k = "output")) /\
  (model_name (self w) = "gpt-3.5-turbo" \/ model_name (self w) = "gpt-4" ->
   (forall i o, exists p, calculate_price i o w = (Return p, w)) /\
   (forall message, exists p, estimate_price message w = (Return p, w)) /\
   (forall create now message temperature ti comp,
       cache_miss ti (self w) message temperature ->
       create (model_name (self w))
         (entering_history ti (self w) ++ [mk_turn "user" message])%list
         temperature = Return comp ->
       exists p,
         (call create now message temperature ti w).1 =
         Return (content comp, p))).
Proof.
  intros Hw. pose proof (reachable_pricing w Hw) as Hpd. split.
  - intros H35 H4.
    assert (Hm : chat_model (model_name (self w)) = false).
    { apply not_true_iff_false. rewrite chat_model_spec. tauto. }
    pose proof (fun i o => price_of_other_model (self w) i o Hpd Hm) as Hp.
    eexists. split; [|split; [|split]].
    + intros i o. by rewrite calculate_price_eq, Hp.
    + intros message. unfold estimate_price.
      by rewrite calculate_price_eq, Hp.
    + intros create now message temperature ti comp Hmiss Hcr.
      unfold cache_miss in Hmiss.
      call_cases create now message temperature ti w; cbn.
      * match goal with H : cacheable _ _ _ = true |- _ =>
          specialize (Hmiss H) end. congruence.
      * congruence.
      * match goal with H : price_of _ _ _ = Raise _ |- _ =>
          rewrite Hp in H end. congruence.
      * match goal with H : price_of _ _ _ = Return _ |- _ =>
          rewrite Hp in H end. done.
    + intros ->. by case_decide.
  - intros Hm. apply chat_model_spec in Hm.
    split; [|split].
    + intros i o.
      destruct (price_of_chat_model (self w) i o Hpd Hm) as (ri & ro & Hp).
      eexists. by rewrite calculate_price_eq, Hp.
    + intros message. unfold estimate_price.
      edestruct (price_of_chat_model (self w)) as (ri & ro & Hp); [done..|].
      eexists. by rewrite calculate_price_eq, Hp.
    + intros create now message temperature ti comp Hmiss Hcr.
      unfold cache_miss in Hmiss.
      call_cases create now message temperature ti w; cbn.
      * match goal with H : cacheable _ _ _ = true |- _ =>
          specialize (Hmiss H) end. congruence.
      * congruence.
      * edestruct (price_of_chat_model (self w)) as (ri & ro & Hp); [done..|].
        match goal with H : price_of _ _ _ = Raise _ |- _ =>
          rewrite Hp in H end. done.
      * eexists. repeat f_equal. congruence.
Qed.

Lemma calculate_price_key_error_witness :
  calculate_price 10 20 (example_world "text-embedding-ada-002" true [] ∅) =
    (Raise (KeyError "output"),
     example_world "text-embedding-ada-002" true [] ∅) /\
  exists p,
    calculate_price 10 20 (example_world "gpt-4" true [] ∅) =
      (Return p, example_world "gpt-4" true [] ∅).
Proof.
  split.
  - destruct (calculate_price_key_error
                (example_world "text-embedding-ada-002" true [] ∅)
                (fresh_reachable "text-embedding-ada-002" true)) as [Hbad _].
    destruct Hbad as (k & Hcalc & _ & _ & Hk).
    + cbn. discriminate.
    + cbn. discriminate.
    + rewrite (Hcalc 10%Q 20%Q), (Hk eq_refl). reflexivity.
  - destruct (calculate_price_key_error
                (example_world "gpt-4" true [] ∅)
                (fresh_reachable "gpt-4" true)) as [_ Hgood].
    destruct Hgood as (Hcalc & _ & _).
    + right. reflexivity.
    + apply (Hcalc 10%Q 20%Q).
Defined.

(** ** Loading a file that is not a dictionary *)

(** C9. [load] on a file whose pickled content is not a dictionary raises
    [AssertionError] and changes nothing: the cache is merged only after
    the check. *)
Theorem load_not_a_dict p tag w :
  disk_read p (disk w) = Some (Pickled (PyOther tag)) ->
  load (Some p) w = (Raise AssertionError, w) /\
  cache (self (load (Some p) w).2) = cache (self w).
Proof.
  intros Hread. cbn [load]. rewrite load_path_eq, Hread. done.
Qed.

Lemma load_not_a_dict_witness :
  load (Some notes_pkl)
    {| self := example_chat "gpt-4" true [] hi_cache;
       disk := [(notes_pkl, Pickled (PyOther "list"))] |} =
  (Raise AssertionError,
   {| self := example_chat "gpt-4" true [] hi_cache;
      disk := [(notes_pkl, Pickled (PyOther "list"))] |}).
Proof.
  apply (load_not_a_dict notes_pkl "list"
           {| self := example_chat "gpt-4" true [] hi_cache;
              disk := [(notes_pkl, Pickled (PyOther "list"))] |}).
  reflexivity.
Defined.

(** ** The running fee *)

Lemma call_fee create now m t ti w :
  pricing_data (self w) = init_pricing_data ->
  (fee (self w) <= fee (self (call create now m t ti w).2))%Q.
Proof.
  intros Hpd. call_cases create now m t ti w; cbn.
  - apply Qle_refl.
  - apply Qle_refl.
  - destruct (cacheable _ _ _); apply Qle_refl.
  - subst c. unfold billed, recorded.
    assert (0 <= price)%Q.
    { eapply price_of_nonneg; eauto using tokens_nonneg. }
    destruct ti, (cacheable _ _ _); cbn; by apply fee_grows.
Qed.

Lemma embedding_fee create q w :
  pricing_data (self w) = init_pricing_data ->
  (fee (self w) <= fee (self (embedding create q w).2))%Q.
Proof.
  intros Hpd. pose proof (embedding_paths create q w) as H.
  remember (embedding create q w) as out. destruct H; cbn.
  - apply Qle_refl.
  - apply Qle_refl.
  - apply Qle_refl.
  - apply fee_grows. apply Qmult_le_0_compat; [apply tokens_nonneg|].
    by eapply embedding_rate_nonneg.
Qed.

Lemma run_op_fee o w :
  pricing_data (self w) = init_pricing_data ->
  (fee (self w) <= fee (self (run_op o w)))%Q.
Proof.
  intros Hpd. destruct o; unfold run_op, exec.
  - apply Qle_refl.
  - apply Qle_refl.
  - rewrite load_footprint. apply Qle_refl.
  - rewrite to_str_state. apply Qle_refl.
  - rewrite calculate_price_state. apply Qle_refl.
  - unfold estimate_price. rewrite calculate_price_state. apply Qle_refl.
  - rewrite summarize_eq.
    pose proof (call_fee create now summary_request 0 false w Hpd) as Hc.
    by destruct (call _ _ _ _ _ w) as [[r|e] w'].
  - by apply call_fee.
  - by apply embedding_fee.
Qed.

(** C5. The accumulated fee never decreases: every operation leaves it at
    least as large as before; a call that went to the provider and returned
    a price, and an embedding request that returned a price, add exactly
    that price (a cache hit returns price 0 and leaves the fee as it was). *)
Theorem fee_monotone w :
  reachable w ->
  (forall o, (fee (self w) <= fee (self (run_op o w)))%Q) /\
  (forall create now message temperature ti res price w',
      call create now message temperature ti w = (Return (res, price), w') ->
      fee (self w') = (fee (self w) + price)%Q \/
      (cache (self w) !! (model_name (self w), message) = Some res /\
       price = 0%Q /\ fee (self w') = fee (self w))) /\
  (forall create q r price w',
      embedding create q w = (Return (r, price), w') ->
      fee (self w') = (fee (self w) + price)%Q).
Proof.
  intros Hw. pose proof (reachable_pricing w Hw) as Hpd.
  split; [|split].
  - intros o. by apply run_op_fee.
  - intros create now message temperature ti res price w' Hcall.
    call_cases create now message temperature ti w;
      rewrite Hcall in *; simplify_eq.
    + right. by cbn.
    + left. cbn. unfold billed, recorded.
      by destruct ti, (cacheable _ _ _).
  - intros create q r price w' Hemb.
    pose proof (embedding_paths create q w) as H.
    rewrite Hemb in H.
    inversion H as [| | |res rate r' Hcr Hrate Hrect price' Hr].
    subst. cbn.
    destruct q, (data res); simplify_eq; done.
Qed.

Lemma fee_monotone_witness :
  (0 <= fee (self (run_op (OpCall provider_ok "20230801120000" "hi" 0 false)
                      (example_world "gpt-4" true [] ∅))))%Q /\
  fee (self (call provider_ok "20230801120000" "hi" 0 false
               (example_world "gpt-4" true [] ∅)).2) =
    (0 + (3.0e-5 * tokens 3 + 6.0e-5 * tokens 5))%Q.
Proof.
  destruct (fee_monotone (example_world "gpt-4" true [] ∅)
              (fresh_reachable "gpt-4" true)) as (Hmono & Hcall & _).
  split.
  - apply (Hmono (OpCall provider_ok "20230801120000" "hi" 0 false)).
  - destruct (Hcall provider_ok "20230801120000" "hi" 0%Q false "hello"
                (3.0e-5 * tokens 3 + 6.0e-5 * tokens 5)%Q
                (call provider_ok "20230801120000" "hi" 0 false
                   (example_world "gpt-4" true [] ∅)).2)
      as [Hfee | (Hhit & _)].
    + vm_compute. reflexivity.
    + exact Hfee.
    + discriminate Hhit.
Defined.

(** ** The transcript across a call *)

Lemma cacheable_entering ti c t :
  cacheable ti c t = true ->
  entering_history ti c = [] /\ Qeq_bool t 0 = true.
Proof.
  unfold cacheable. intros [Hn Ht]%andb_true_iff. split; [|done].
  by destruct (entering_history ti c).
Qed.

(** The transcript after a call, path by path. *)
Lemma call_history create now m t ti w :
  match (call create now m t ti w).1 with
  | Return (res, _) =>
      chat_history (self (call create now m t ti w).2) =
      (entering_history ti (self w) ++ exchange m res)%list
  | Raise _ =>
      chat_history (self (call create now m t ti w).2) =
        entering_history ti (self w) \/
      exists comp,
        create (model_name (self w))
          (entering_history ti (self w) ++ [mk_turn "user" m])%list t =
          Return comp /\
        chat_history (self (call create now m t ti w).2) =
        (entering_history ti (self w) ++ exchange m (content comp))%list
  end.
Proof.
  call_cases create now m t ti w; cbn.
  - match goal with H : cacheable _ _ _ = true |- _ =>
      apply cacheable_entering in H as [-> _] end. done.
  - by left.
  - right. eexists. split; [done|]. by destruct (cacheable _ _ _).
  - subst c. unfold billed, recorded. by destruct ti, (cacheable _ _ _).
Qed.




(** ** Who writes the cache *)

(** The cache after a call: unchanged, or one fresh key added. *)
Lemma call_cache create now m t ti w :
  cache (self (call create now m t ti w).2) = cache (self w) \/
  (cacheable ti (self w) t = true /\
   cache (self w) !! (model_name (self w), m) = None /\
   exists comp,
     create (model_name (self w)) [mk_turn "user" m] t = Return comp /\
     cache (self (call create now m t ti w).2) =
       <[(model_name (self w), m) := content comp]> (cache (self w)) /\
     chat_history (self (call create now m t ti w).2) =
       exchange m (content comp)).
Proof.
  call_cases create now m t ti w; cbn.
  - by left.
  - by left.
  - destruct (cacheable _ _ _) eqn:Hc; [|by left].
    right. destruct (cacheable_entering _ _ _ Hc) as [Hh _].
    rewrite Hh in *. split; [done|]. split; [auto|]. by eexists.
  - subst c. unfold billed, recorded.
    destruct (cacheable _ _ _) eqn:Hc; [|by destruct ti; left].
    right. destruct (cacheable_entering _ _ _ Hc) as [Hh _].
    rewrite Hh in *. split; [done|]. split; [auto|].
    eexists. split; [done|]. by destruct ti.
Qed.

Lemma for_each_load_cache ps w :
  cache (self (for_each ps load_path w).2) =
  merge_all (cache (self w)) (shards_read ps (disk w)).
Proof.
  revert w. induction ps as [|p ps IH]; intros w; cbn; [done|].
  unfold bind. rewrite load_path_eq.
  destruct (disk_read p (disk w)) as [[[obj|tag]|]|] eqn:Hread; cbn; try done.
  by rewrite IH.
Qed.

Lemma load_cache p w :
  cache (self (load p w).2) =
  merge_all (cache (self w)) (shards_read (load_targets p w) (disk w)).
Proof.
  destruct p as [p|]; cbn [load load_targets].
  - rewrite load_path_eq. cbn.
    by destruct (disk_read p (disk w)) as [[[obj|tag]|]|].
  - run. apply for_each_load_cache.
Qed.

(** C2, as the code has it.  A call changes the cache only when the
    exchange starts from an empty transcript (empty before the call, or
    emptied by the call because interactive mode is off) with temperature 0:
    then the key (current model name, message), absent before, is mapped to
    the response text and the transcript is exactly the new pair.  Of the
    other operations, [load] merges into the cache exactly the dictionaries
    it reads (the file at its path, or the listed files of the save
    directory, in order, up to the first that is not a pickled dictionary),
    [summarize_and_clear_history] adds what its call adds, and the rest
    leave the cache alone. *)
Theorem cache_population w :
  (forall create now message temperature ti,
      cache (self (call create now message temperature ti w).2) =
        cache (self w) \/
      (entering_history ti (self w) = [] /\ (temperature == 0)%Q /\
       cache (self w) !! (model_name (self w), message) = None /\
       exists comp,
         create (model_name (self w)) [mk_turn "user" message] temperature =
           Return comp /\
         cache (self (call create now message temperature ti w).2) =
           <[(model_name (self w), message) := content comp]>
             (cache (self w)) /\
         chat_history (self (call create now message temperature ti w).2) =
           [mk_turn "user" message; mk_turn "assistant" (content comp)])) /\
  (forall o,
      match o with
      | OpCall _ _ _ _ _ => True
      | OpSummarize create now =>
          cache (self (run_op o w)) =
          cache (self (call create now summary_request 0 false w).2)
      | OpLoad p =>
          cache (self (run_op o w)) =
          merge_all (cache (self w))
            (shards_read (load_targets p w) (disk w))
      | _ => cache (self (run_op o w)) = cache (self w)
      end).
Proof.
  split.
  - intros create now message temperature ti.
    destruct (call_cache create now message temperature ti w)
      as [Hsame | (Hc & Hnone & comp & Hcr & Hca & Hh)]; [by left|].
    right. destruct (cacheable_entering _ _ _ Hc) as [Hent Ht].
    split; [done|]. split; [by apply Qeq_bool_iff|]. split; [done|].
    by exists comp.
  - intros o. destruct o; unfold run_op, exec; try done.
    + apply load_cache.
    + by rewrite to_str_state.
    + by rewrite calculate_price_state.
    + unfold estimate_price. by rewrite calculate_price_state.
    + rewrite summarize_eq.
      by destruct (call _ _ _ _ _ w) as [[r|e] w'].
    + pose proof (embedding_paths create q w) as H.
      remember (embedding create q w) as out. by destruct H.
Qed.

Lemma cache_population_witness :
  cache (self (run_op (OpLoad None) shard_world)) = hi_cache ∪ ∅ /\
  cache (self (run_op (OpLoad (Some notes_pkl)) shard_world)) = ∅.
Proof.
  destruct (cache_population shard_world) as [_ Hops].
  split.
  - apply (Hops (OpLoad None)).
  - apply (Hops (OpLoad (Some notes_pkl))).
Defined.

(** C2, as stated, fails twice: a call made with interactive mode off on a
    transcript that was not empty adds a cache entry, and [load] adds
    entries too. *)
Lemma cache_entry_added_otherwise :
  (chat_history (self (example_world "gpt-4" false old_exchange ∅)) <> [] /\
   cache (self (example_world "gpt-4" false old_exchange ∅))
     !! ("gpt-4", "hi") = None /\
   cache (self (call provider_ok "20230801120000" "hi" 0 false
                  (example_world "gpt-4" false old_exchange ∅)).2)
     !! ("gpt-4", "hi") = Some "hello") /\
  (cache (self shard_world) !! ("gpt-4", "hi") = None /\
   cache (self (load None shard_world).2) !! ("gpt-4", "hi") = Some "hello").
Proof.
  repeat split; try (vm_compute; reflexivity). vm_compute. discriminate.
Qed.

(** ** The transcript across all operations *)

Lemma last_two_app_pair {A} (h : list A) a b : last_two (h ++ [a; b]) = [a; b].
Proof.
  unfold last_two. rewrite length_app. cbn [length].
  replace (length h + 2 - 2)%nat with (length h) by lia.
  by rewrite drop_app_length.
Qed.

Lemma summarize_history create now w :
  match (call create now summary_request 0 false w).1 with
  | Return (res, _) =>
      chat_history (self (summarize_and_clear_history create now w).2) =
      exchange summary_request res
  | Raise _ =>
      (summarize_and_clear_history create now w).2 =
      (call create now summary_request 0 false w).2
  end.
Proof.
  rewrite summarize_eq.
  pose proof (call_history create now summary_request 0 false w) as Hh.
  destruct (call _ _ _ _ _ w) as [[[res price]|e] w']; cbn in *; [|done].
  rewrite Hh. apply last_two_app_pair.
Qed.

(** The operations that do not touch the transcript. *)
Lemma run_op_history_kept o w :
  match o with
  | OpReset | OpCall _ _ _ _ _ | OpSummarize _ _ => True
  | _ => chat_history (self (run_op o w)) = chat_history (self w)
  end.
Proof.
  destruct o; unfold run_op, exec; try done.
  - by rewrite load_footprint.
  - by rewrite to_str_state.
  - by rewrite calculate_price_state.
  - unfold estimate_price. by rewrite calculate_price_state.
  - pose proof (embedding_paths create q w) as H.
    remember (embedding create q w) as out. by destruct H.
Qed.

Lemma call_history_prefix create now m t ti w :
  entering_history ti (self w)
    `prefix_of` chat_history (self (call create now m t ti w).2).
Proof.
  pose proof (call_history create now m t ti w) as Hh.
  destruct (call _ _ _ _ _ w).1 as [[res price]|e].
  - rewrite Hh. by apply prefix_app_r.
  - destruct Hh as [-> | (comp & _ & ->)]; [done|]. by apply prefix_app_r.
Qed.

(** C4, as the code has it.  [reset] empties the transcript; a call keeps
    the transcript it starts from (the old one, or the empty one when
    interactive mode is off) as a prefix of the new one;
    [summarize_and_clear_history] runs a call and, when it returns, keeps
    only the summary request and its answer; every other operation leaves
    the transcript as it was. *)
Theorem transcript_append_only o w :
  match o with
  | OpReset => chat_history (self (run_op o w)) = []
  | OpCall _ _ _ _ ti =>
      entering_history ti (self w) `prefix_of` chat_history (self (run_op o w))
  | OpSummarize create now =>
      match (call create now summary_request 0 false w).1 with
      | Return (res, _) =>
          chat_history (self (run_op o w)) =
          [mk_turn "user" summary_request; mk_turn "assistant" res]
      | Raise _ =>
          entering_history false (self w)
            `prefix_of` chat_history (self (run_op o w))
      end
  | _ => chat_history (self (run_op o w)) = chat_history (self w)
  end.
Proof.
  pose proof (run_op_history_kept o w) as Hkept.
  destruct o; try exact Hkept; unfold run_op, exec.
  - done.
  - pose proof (summarize_history create now w) as Hs.
    pose proof (call_history_prefix create now summary_request 0 false w)
      as Hpre.
    destruct (call _ _ _ _ _ w).1 as [[res price]|e]; [done|].
    by rewrite Hs.
  - apply call_history_prefix.
Qed.

(** C4, as stated, fails: [summarize_and_clear_history], run in interactive
    mode, drops the entries that were in the transcript. *)
Lemma summarize_drops_entries :
  interactive (self (example_world "gpt-4" true old_exchange ∅)) = true /\
  chat_history (self (example_world "gpt-4" true old_exchange ∅)) =
    [mk_turn "user" "q"; mk_turn "assistant" "a"] /\
  chat_history
    (self (run_op (OpSummarize provider_ok "20230801120000")
             (example_world "gpt-4" true old_exchange ∅))) =
    [mk_turn "user" summary_request; mk_turn "assistant" "hello"] /\
  ~ (chat_history (self (example_world "gpt-4" true old_exchange ∅))
       `prefix_of`
     chat_history
       (self (run_op (OpSummarize provider_ok "20230801120000")
                (example_world "gpt-4" true old_exchange ∅)))).
Proof.
  assert (Hs : chat_history
    (self (run_op (OpSummarize provider_ok "20230801120000")
             (example_world "gpt-4" true old_exchange ∅))) =
    [mk_turn "user" summary_request; mk_turn "assistant" "hello"]).
  { vm_compute. reflexivity. }
  repeat split; try reflexivity; try exact Hs.
  rewrite Hs. intros [k Hk].
  apply (f_equal (fun l => head l ≫= (.!! "content"))) in Hk.
  vm_compute in Hk. discriminate Hk.
Qed.

(** ** Merging the shards *)

Lemma for_each_load_merges ps w shards :
  read_shards ps (disk w) = Some shards ->
  for_each ps load_path w =
  (Return tt,
   {| self := set_cache (merge_all (cache (self w)) shards) (self w);
      disk := disk w |}).
Proof.
  revert w shards. induction ps as [|p ps IH]; intros w shards; cbn.
  - intros [= <-]. cbn. by rewrite set_cache_same, world_eta.
  - destruct (disk_read p (disk w)) as [[[shard|tag]|]|] eqn:Hread; try done.
    destruct (read_shards ps (disk w)) as [rest|] eqn:Hrest; [|done].
    intros [= <-]. unfold bind. rewrite load_path_eq, Hread.
    rewrite (IH _ rest); [|done]. by destruct w as [[] ?].
Qed.

Lemma merge_all_absent c shards k :
  (forall s, s ∈ shards -> s !! k = None) ->
  merge_all c shards !! k = c !! k.
Proof.
  revert c. induction shards as [|s shards IH]; intros c Hno; [done|].
  cbn. rewrite IH.
  - apply lookup_union_r. apply Hno. by left.
  - intros s' Hs'. apply Hno. by right.
Qed.

Lemma merge_all_last c shards k i s v :
  shards !! i = Some s ->
  s !! k = Some v ->
  (forall j s', (i < j)%nat -> shards !! j = Some s' -> s' !! k = None) ->
  merge_all c shards !! k = Some v.
Proof.
  revert c i. induction shards as [|s0 shards IH]; intros c i Hi Hv Hlast;
    [done|].
  cbn. destruct i as [|i]; cbn in Hi.
  - injection Hi as ->. rewrite merge_all_absent.
    + by apply lookup_union_Some_l.
    + intros s' [j Hj]%list_elem_of_lookup.
      apply (Hlast (S j)); [lia | done].
  - apply (IH _ i); [done..|].
    intros j s' Hij Hj. apply (Hlast (S j)); [lia | done].
Qed.

(** C6. [load()] with no path, on a save directory whose [*.pkl] files are
    all pickled dictionaries, returns after merging every one of them into
    the cache by dictionary union, in listing order: a key found in some
    shard maps to the value of the last shard that has it, and a key found
    in no shard keeps the value it had. *)
Theorem load_merges_shards w shards :
  read_shards (glob_pkl (savedir (self w)) (disk w)) (disk w) = Some shards ->
  exists w',
    load None w = (Return tt, w') /\
    cache (self w') = merge_all (cache (self w)) shards /\
    (forall k i s v,
        shards !! i = Some s ->
        s !! k = Some v ->
        (forall j s', (i < j)%nat -> shards !! j = Some s' -> s' !! k = None) ->
        cache (self w') !! k = Some v) /\
    (forall k,
        (forall s, s ∈ shards -> s !! k = None) ->
        cache (self w') !! k = cache (self w) !! k).
Proof.
  intros Hread. eexists. split; [|split; [|split]].
  - unfold load. run. by apply for_each_load_merges.
  - done.
  - intros k i s v. cbn. apply merge_all_last.
  - intros k. cbn. apply merge_all_absent.
Qed.

Lemma load_merges_shards_witness :
  exists w',
    load None two_shard_world = (Return tt, w') /\
    cache (self w') !! ("gpt-4", "hi") = Some "hello again" /\
    cache (self w') !! ("gpt-4", "bye") = Some "ciao".
Proof.
  destruct (load_merges_shards two_shard_world
              [hi_cache; ∅; <[("gpt-4", "hi") := "hello again"]> ∅])
    as (w' & Hload & _ & Hlast & Hkeep).
  - vm_compute. reflexivity.
  - exists w'. split; [exact Hload|]. split.
    + apply (Hlast ("gpt-4", "hi") 2%nat
               (<[("gpt-4", "hi") := "hello again"]> ∅) "hello again").
      * reflexivity.
      * reflexivity.
      * intros j s' Hj Hs'. destruct j as [|[|[|[|j]]]]; try lia;
          cbn in Hs'; discriminate Hs'.
    + rewrite (Hkeep ("gpt-4", "bye")).
      * reflexivity.
      * intros s Hs.
        apply list_elem_of_In in Hs.
        destruct Hs as [<- | [<- | [<- | []]]]; reflexivity.
Defined.

(** ** The shape of the transcript *)

Lemma mk_turn_is_turn role content : is_turn role (mk_turn role content).
Proof.
  unfold is_turn, mk_turn. split.
  - rewrite !dom_insert_L, dom_empty_L. set_solver.
  - by rewrite lookup_insert_ne, lookup_insert_eq.
Qed.

Lemma mk_turn_content role content :
  mk_turn role content !! "content" = Some content.
Proof. unfold mk_turn. by rewrite lookup_insert_eq. Qed.

Lemma paired_even h : paired h -> Nat.even (length h) = true.
Proof.
  induction 1 as [|h m r _ IH]; [done|].
  rewrite length_app. cbn [length exchange].
  replace (length h + 2)%nat with (S (S (length h))) by lia. done.
Qed.

Lemma paired_alternates h : paired h -> alternates h.
Proof.
  induction 1 as [|h m r Hp IH]; intros i t Hi; [done|].
  destruct (decide (i < length h)%nat) as [Hlt|Hge].
  - rewrite lookup_app_l in Hi by done. by apply IH.
  - rewrite lookup_app_r in Hi by lia.
    pose proof (paired_even h Hp) as Hev.
    replace i with (length h + (i - length h))%nat by lia.
    rewrite Nat.even_add, Hev.
    destruct (i - length h)%nat as [|[|k]]; cbn in Hi; simplify_eq; cbn.
    + apply mk_turn_is_turn.
    + apply mk_turn_is_turn.
Qed.

Lemma paired_entering ti c :
  paired (chat_history c) -> paired (entering_history ti c).
Proof.
  unfold entering_history. destruct (ti || interactive c); [done|constructor].
Qed.

Lemma call_paired create now m t ti w :
  paired (chat_history (self w)) ->
  paired (chat_history (self (call create now m t ti w).2)).
Proof.
  intros Hp. apply (paired_entering ti) in Hp.
  pose proof (call_history create now m t ti w) as Hh.
  destruct (call _ _ _ _ _ w).1 as [[res price]|e].
  - rewrite Hh. by constructor.
  - destruct Hh as [-> | (comp & _ & ->)]; [done | by constructor].
Qed.

Lemma run_op_paired o w :
  paired (chat_history (self w)) ->
  paired (chat_history (self (run_op o w))).
Proof.
  intros Hp. pose proof (run_op_history_kept o w) as Ht.
  destruct o; cbn [run_op] in *; try (by rewrite Ht).
  - constructor.
  - unfold exec in *.
    pose proof (summarize_history create now w) as Hs.
    pose proof (call_paired create now summary_request 0 false w Hp) as Hc.
    destruct (call _ _ _ _ _ w).1 as [[res price]|e].
    + rewrite Hs. apply (paired_snoc []). constructor.
    + by rewrite Hs.
  - by apply call_paired.
Qed.

Lemma reachable_paired w : reachable w -> paired (chat_history (self w)).
Proof.
  induction 1 as [key model emb itv asl d w Hinit|o w Hw IH|d w Hw IH].
  - unfold init in Hinit. destruct asl; cbn [when] in Hinit.
    + match type of Hinit with load None ?w0 = _ =>
        pose proof (load_footprint None w0) as Hf end.
      rewrite Hinit in Hf. cbn in Hf. rewrite Hf. constructor.
    + inversion Hinit. constructor.
  - by apply run_op_paired.
  - done.
Qed.

(** C7. Throughout a session the transcript alternates user and assistant
    entries, a user entry first, each entry a dictionary with exactly the
    keys 'role' and 'content'; the entries a call appends are the user
    entry carrying the message and the assistant entry carrying the
    response. *)
Theorem transcript_alternates w :
  reachable w ->
  alternates (chat_history (self w)) /\
  (forall o, alternates (chat_history (self (run_op o w)))) /\
  (forall create now message temperature ti,
      let h' := chat_history (self (call create now message temperature ti w).2) in
      h' = entering_history ti (self w) \/
      exists res,
        h' = (entering_history ti (self w) ++
                [mk_turn "user" message; mk_turn "assistant" res])%list /\
        is_turn "user" (mk_turn "user" message) /\
        mk_turn "user" message !! "content" = Some message /\
        is_turn "assistant" (mk_turn "assistant" res) /\
        mk_turn "assistant" res !! "content" = Some res).
Proof.
  intros Hw. pose proof (reachable_paired w Hw) as Hp.
  split; [|split].
  - by apply paired_alternates.
  - intros o. by apply paired_alternates, run_op_paired.
  - intros create now message temperature ti h'. subst h'.
    pose proof (call_history create now message temperature ti w) as Hh.
    destruct (call _ _ _ _ _ w).1 as [[res price]|e].
    + right. exists res. split; [done|].
      auto using mk_turn_is_turn, mk_turn_content.
    + destruct Hh as [-> | (comp & _ & ->)]; [by left|].
      right. exists (content comp). split; [done|].
      auto using mk_turn_is_turn, mk_turn_content.
Qed.

Lemma transcript_alternates_witness :
  alternates
    (chat_history
       (self (run_op (OpCall provider_ok "20230801120000" "hi" 0 false)
                (example_world "gpt-4" true [] ∅)))).
Proof.
  destruct (transcript_alternates (example_world "gpt-4" true [] ∅)
              (fresh_reachable "gpt-4" true)) as (_ & Hops & _).
  apply (Hops (OpCall provider_ok "20230801120000" "hi" 0 false)).
Defined.

(** ** The [interactive] flag across a call *)

(** A call that goes to the provider and returns puts [interactive] back. *)
Lemma call_restores_interactive create now m t ti w comp price :
  cache_miss ti (self w) m t ->
  create (model_name (self w))
    (entering_history ti (self w) ++ [mk_turn "user" m])%list t = Return comp ->
  price_of (self w) (tokens (prompt_tokens comp))
    (tokens (completion_tokens comp)) = Return price ->
  (call create now m t ti w).1 = Return (content comp, price) /\
  interactive (self (call create now m t ti w).2) = interactive (self w).
Proof.
  intros Hmiss Hcr Hprice. unfold cache_miss in Hmiss.
  call_cases create now m t ti w; cbn.
  - match goal with H : cacheable _ _ _ = true |- _ =>
      specialize (Hmiss H) end. congruence.
  - congruence.
  - congruence.
  - subst c. unfold billed, recorded. split; [congruence|].
    destruct ti, (cacheable _ _ _); cbn; try done;
      by destruct (interactive (self w)).
Qed.

(** No call assigns the configuration fields. *)
Lemma call_frame create now m t ti w :
  let c' := self (call create now m t ti w).2 in
  model_name c' = model_name (self w) /\
  embedding_model_name c' = embedding_model_name (self w) /\
  api_key c' = api_key (self w) /\
  pricing_data c' = pricing_data (self w) /\
  savedir c' = savedir (self w).
Proof. destruct (call_config create now m t ti w). by repeat split. Qed.

(** C10 at the failing input: in a session with interactive mode off, a
    call with [temporary_interactive=True] that is answered from the cache
    returns early, and [interactive] is left on. *)
Theorem call_hit_leaves_interactive_on :
  reachable asked_once /\
  interactive (self asked_once) = false /\
  (call provider_ok "20230801130000" "hi" 0 true asked_once).1 =
    Return ("hello", 0%Q) /\
  interactive
    (self (call provider_ok "20230801130000" "hi" 0 true asked_once).2) = true.
Proof.
  split.
  - unfold asked_once. do 2 apply reach_op. apply fresh_reachable.
  - repeat split; vm_compute; reflexivity.
Qed.

(** * Further properties of the code *)

(** ** Saving and loading *)

Lemma disk_read_write_eq p f d : disk_read p (disk_write p f d) = Some f.
Proof.
  induction d as [|[q g] d IH]; cbn.
  - by rewrite decide_True.
  - destruct (decide (q = p)) as [->|Hne]; cbn.
    + by rewrite decide_True.
    + by rewrite decide_False.
Qed.

Lemma disk_read_write_ne p q f d :
  q <> p -> disk_read q (disk_write p f d) = disk_read q d.
Proof.
  intros Hne. induction d as [|[r g] d IH]; cbn.
  - by rewrite decide_False.
  - destruct (decide (r = p)) as [->|Hrp]; cbn.
    + by rewrite !decide_False.
    + destruct (decide (r = q)); [done | exact IH].
Qed.

Lemma substring_app_r a b :
  String.substring (String.length a) (String.length b) (a ++ b) = b.
Proof.
  induction a as [|c a IH].
  - change ("" ++ b) with b. cbn [String.length].
    induction b as [|c b IHb]; cbn; [done|]. by rewrite IHb.
  - change (String c a ++ b) with (String c (a ++ b)). exact IH.
Qed.

Lemma string_length_app a b :
  String.length (a ++ b) = (String.length a + String.length b)%nat.
Proof.
  induction a as [|c a IH]; [done|].
  change (String c a ++ b) with (String c (a ++ b)). cbn. by rewrite IH.
Qed.

Lemma ends_with_app a b : ends_with b (a ++ b) = true.
Proof.
  unfold ends_with. rewrite string_length_app.
  apply andb_true_iff. split.
  - apply Nat.leb_le. lia.
  - replace (String.length a + String.length b - String.length b)%nat
      with (String.length a) by lia.
    rewrite substring_app_r. apply String.eqb_refl.
Qed.

(** X1. What [save] does: it returns, leaves the object alone, writes the
    pickled cache at [savedir/now.pkl], a file the next [load()] lists, and
    leaves every other file as it was. *)
Theorem save_effect now w :
  (save now w).1 = Return tt /\
  self (save now w).2 = self w /\
  disk_read (save_path (self w) now) (disk (save now w).2) =
    Some (Pickled (PyDict (cache (self w)))) /\
  in_glob (savedir (self w)) (save_path (self w) now) = true /\
  (forall q, q <> save_path (self w) now ->
             disk_read q (disk (save now w).2) = disk_read q (disk w)).
Proof.
  rewrite save_eq. cbn. split; [done|]. split; [done|]. split; [|split].
  - apply disk_read_write_eq.
  - unfold in_glob, save_path. cbn.
    by rewrite String.eqb_refl, ends_with_app.
  - intros q Hq. by apply disk_read_write_ne.
Qed.

Lemma save_effect_witness :
  disk_read notes_pkl
    (disk (save "20230801120000"
             {| self := example_chat "gpt-4" true [] hi_cache;
                disk := [(notes_pkl, Pickled (PyOther "list"))] |}).2) =
  Some (Pickled (PyOther "list")).
Proof.
  destruct (save_effect "20230801120000"
              {| self := example_chat "gpt-4" true [] hi_cache;
                 disk := [(notes_pkl, Pickled (PyOther "list"))] |})
    as (_ & _ & _ & _ & Hother).
  rewrite (Hother notes_pkl).
  - reflexivity.
  - cbn. discriminate.
Defined.

(** X2. Round trip: loading the file that [save] wrote, into any object on
    that disk, returns and merges the saved cache over that object's cache.
    Into an object with an empty cache it restores the saved cache exactly;
    back into the saving object it changes nothing. *)
Theorem save_load_round_trip now w :
  (forall c2,
      load (Some (save_path (self w) now))
        {| self := c2; disk := disk (save now w).2 |} =
      (Return tt,
       {| self := set_cache (cache (self w) ∪ cache c2) c2;
          disk := disk (save now w).2 |})) /\
  (forall c2,
      cache (self (load (Some (save_path (self w) now))
                     {| self := set_cache ∅ c2;
                        disk := disk (save now w).2 |}).2) =
      cache (self w)) /\
  load (Some (save_path (self w) now)) (save now w).2 =
    (Return tt, (save now w).2).
Proof.
  assert (Hgen : forall c2,
      load (Some (save_path (self w) now))
        {| self := c2; disk := disk (save now w).2 |} =
      (Return tt,
       {| self := set_cache (cache (self w) ∪ cache c2) c2;
          disk := disk (save now w).2 |})).
  { intros c2. cbn [load]. rewrite load_path_eq. cbn [disk self].
    rewrite save_eq. cbn [snd disk self]. unfold save_path.
    by rewrite disk_read_write_eq. }
  split; [exact Hgen|]. split.
  - intros c2. rewrite Hgen. cbn. apply (right_id_L ∅ (∪)).
  - rewrite <- (world_eta (save now w).2) at 1. rewrite Hgen.
    rewrite save_eq. cbn. rewrite (idemp_L (∪)).
    by rewrite set_cache_same.
Qed.

(** ** When loading fails *)

Lemma read_shards_app ps1 ps2 d :
  read_shards (ps1 ++ ps2) d =
  match read_shards ps1 d, read_shards ps2 d with
  | Some s1, Some s2 => Some (s1 ++ s2)%list
  | _, _ => None
  end.
Proof.
  induction ps1 as [|p ps1 IH]; cbn.
  - by destruct (read_shards ps2 d).
  - destruct (disk_read p d) as [[[shard|tag]|]|]; try done.
    rewrite IH.
    by destruct (read_shards ps1 d), (read_shards ps2 d).
Qed.

Lemma for_each_app {A} (l1 l2 : list A) body w :
  for_each (l1 ++ l2) body w =
  match for_each l1 body w with
  | (Return _, w1) => for_each l2 body w1
  | (Raise e, w1) => (Raise e, w1)
  end.
Proof.
  revert w. induction l1 as [|x l1 IH]; intros w; cbn; [done|].
  unfold bind. destruct (body x w) as [[[]|e] w1]; [apply IH | done].
Qed.

(** X3. A failing load.  [load(path)] that raises has changed nothing.
    [load()] stops at the first listed file that is not a pickled
    dictionary and raises there; the shards listed before it have already
    been merged into the cache, and nothing else has changed. *)
Theorem load_failure w :
  (forall p e, (load (Some p) w).1 = Raise e -> (load (Some p) w).2 = w) /\
  (forall ps1 p ps2 shards,
      glob_pkl (savedir (self w)) (disk w) = (ps1 ++ p :: ps2)%list ->
      read_shards ps1 (disk w) = Some shards ->
      (forall obj, disk_read p (disk w) <> Some (Pickled (PyDict obj))) ->
      exists e,
        load None w =
        (Raise e,
         {| self := set_cache (merge_all (cache (self w)) shards) (self w);
            disk := disk w |})).
Proof.
  split.
  - intros p e. cbn [load]. rewrite load_path_eq.
    by destruct (disk_read p (disk w)) as [[[obj|tag]|]|].
  - intros ps1 p ps2 shards Hglob Hread Hbad.
    unfold load. run. rewrite Hglob, for_each_app.
    rewrite (for_each_load_merges ps1 w shards Hread).
    cbn [for_each]. unfold bind. rewrite load_path_eq. cbn [disk self].
    destruct (disk_read p (disk w)) as [[[obj|tag]|]|] eqn:Hp;
      try (by eexists).
    by destruct (Hbad obj).
Qed.

Lemma load_failure_witness :
  exists e,
    load None
      {| self := example_chat "gpt-4" true [] ∅;
         disk := [(shard_pkl, Pickled (PyDict hi_cache));
                  (notes_pkl, Pickled (PyOther "list"));
                  (newer_pkl, Pickled (PyDict ∅))] |} =
    (Raise e,
     {| self := set_cache (merge_all ∅ [hi_cache])
                  (example_chat "gpt-4" true [] ∅);
        disk := [(shard_pkl, Pickled (PyDict hi_cache));
                 (notes_pkl, Pickled (PyOther "list"));
                 (newer_pkl, Pickled (PyDict ∅))] |}).
Proof.
  destruct (load_failure
              {| self := example_chat "gpt-4" true [] ∅;
                 disk := [(shard_pkl, Pickled (PyDict hi_cache));
                          (notes_pkl, Pickled (PyOther "list"));
                          (newer_pkl, Pickled (PyDict ∅))] |}) as [_ Hall].
  apply (Hall [shard_pkl] notes_pkl [newer_pkl] [hi_cache]).
  - reflexivity.
  - reflexivity.
  - intros obj. cbn. discriminate.
Defined.

(** ** Loading twice *)

Lemma merge_all_union c shards :
  merge_all c shards = merge_all ∅ shards ∪ c.
Proof.
  revert c. induction shards as [|s shards IH]; intros c; cbn.
  - by rewrite (left_id_L ∅ (∪)).
  - rewrite IH, (IH (s ∪ ∅)).
    by rewrite (right_id_L ∅ (∪)), (assoc_L (∪)).
Qed.

Lemma merge_all_idemp c shards :
  merge_all (merge_all c shards) shards = merge_all c shards.
Proof.
  rewrite (merge_all_union (merge_all c shards)), (merge_all_union c).
  by rewrite (assoc_L (∪)), (idemp_L (∪)).
Qed.

Lemma for_each_load_raises ps w :
  read_shards ps (disk w) = None ->
  exists e, (for_each ps load_path w).1 = Raise e.
Proof.
  revert w. induction ps as [|p ps IH]; intros w; cbn; [done|].
  unfold bind. rewrite load_path_eq.
  destruct (disk_read p (disk w)) as [[[shard|tag]|]|] eqn:Hread;
    try (by eexists).
  destruct (read_shards ps (disk w)) as [rest|] eqn:Hrest; [done|].
  intros _. by apply IH.
Qed.

Lemma load_returns_shards w :
  (load None w).1 = Return tt ->
  exists shards,
    read_shards (glob_pkl (savedir (self w)) (disk w)) (disk w) = Some shards.
Proof.
  intros Hret.
  destruct (read_shards _ (disk w)) as [shards|] eqn:Hread; [by eexists|].
  apply for_each_load_raises in Hread as [e He].
  unfold load in Hret. revert Hret. run. by rewrite He.
Qed.

(** X4. Loading is idempotent: when [load], with or without a path, has
    returned, running the same [load] again on the unchanged disk returns
    and changes nothing. *)
Theorem load_idempotent p w :
  (load p w).1 = Return tt ->
  load p (load p w).2 = (Return tt, (load p w).2).
Proof.
  destruct p as [p|].
  - cbn [load]. rewrite load_path_eq.
    destruct (disk_read p (disk w)) as [[[obj|tag]|]|] eqn:Hread; try done.
    intros _. cbn [snd]. rewrite load_path_eq. cbn [disk self]. rewrite Hread.
    cbn. rewrite (assoc_L (∪)), (idemp_L (∪)). by destruct w as [[] ?].
  - intros Hret. destruct (load_returns_shards w Hret) as [shards Hread].
    assert (Hl : forall c,
      load None {| self := set_cache c (self w); disk := disk w |} =
      (Return tt,
       {| self := set_cache (merge_all c shards) (self w); disk := disk w |})).
    { intros c. unfold load. run.
      rewrite (for_each_load_merges _ _ shards); [|done].
      by destruct w as [[] ?]. }
    pose proof (Hl (cache (self w))) as H1.
    rewrite set_cache_same, world_eta in H1. rewrite H1. cbn [snd].
    by rewrite Hl, merge_all_idemp.
Qed.

Lemma load_idempotent_witness :
  load None (load None two_shard_world).2 =
  (Return tt, (load None two_shard_world).2).
Proof.
  apply (load_idempotent None two_shard_world).
  vm_compute. reflexivity.
Defined.

(** ** One call, one path *)

Lemma call_path_eq create now m t ti w out :
  call_path create now m t ti w out -> call create now m t ti w = out.
Proof.
  intros H. pose proof (call_paths create now m t ti w) as H'.
  remember (call create now m t ti w) as o eqn:E. clear E.
  destruct H, H';
    repeat match goal with
           | Hc : cacheable _ _ _ = true, Hm : cacheable _ _ _ = true -> _ |- _ =>
               specialize (Hm Hc)
           end;
    repeat match goal with
           | c := _ |- _ => subst c
           end;
    repeat match goal with
           | H1 : ?x = _, H2 : ?x = _ |- _ => rewrite H1 in H2; simplify_eq
           end;
    done.
Qed.

Lemma cacheable_true ti c t :
  entering_history ti c = [] -> (t == 0)%Q -> cacheable ti c t = true.
Proof.
  intros Hh Ht. unfold cacheable. rewrite Hh. cbn.
  by apply Qeq_bool_iff.
Qed.

Lemma cacheable_false ti c t :
  ~ (t == 0)%Q \/ entering_history ti c <> [] -> cacheable ti c t = false.
Proof.
  intros H. apply not_true_iff_false. intros Hc.
  apply cacheable_entering in Hc as [Hh Ht].
  apply Qeq_bool_iff in Ht. tauto.
Qed.

(** The answer of a single-turn call at temperature 0 is in the cache
    afterwards, whether it came from the cache or from the provider. *)
Lemma call_return_cached create now m t ti w res price :
  entering_history ti (self w) = [] ->
  (t == 0)%Q ->
  (call create now m t ti w).1 = Return (res, price) ->
  cache (self (call create now m t ti w).2) !! (model_name (self w), m) =
    Some res /\
  model_name (self (call create now m t ti w).2) = model_name (self w).
Proof.
  intros Hh Ht Hret. pose proof (cacheable_true _ _ _ Hh Ht) as Hc.
  split; [|by destruct (call_config create now m t ti w)].
  revert Hret. call_cases create now m t ti w; cbn; intros Hret;
    simplify_eq.
  - done.
  - subst c. unfold billed, recorded. rewrite Hc.
    destruct ti; cbn; apply lookup_insert_eq.
Qed.

(** ** Memoisation *)

(** X5. Memoisation.  After a single-turn call at temperature 0 has
    returned an answer, the same message gets the same answer at price 0,
    whatever the provider would do now, and the fee stays: after [reset]
    for any call, and without [reset] when interactive mode is off. *)
Theorem call_memoized create now message temperature ti w res price :
  entering_history ti (self w) = [] ->
  (temperature == 0)%Q ->
  (call create now message temperature ti w).1 = Return (res, price) ->
  (forall create' now' ti',
      (call create' now' message temperature ti'
         (reset (call create now message temperature ti w).2).2).1 =
        Return (res, 0%Q) /\
      fee (self (call create' now' message temperature ti'
                   (reset (call create now message temperature ti w).2).2).2) =
        fee (self (call create now message temperature ti w).2)) /\
  (interactive (self (call create now message temperature ti w).2) = false ->
   forall create' now',
      (call create' now' message temperature false
         (call create now message temperature ti w).2).1 =
        Return (res, 0%Q) /\
      fee (self (call create' now' message temperature false
                   (call create now message temperature ti w).2).2) =
        fee (self (call create now message temperature ti w).2)).
Proof.
  intros Hh Ht Hret.
  destruct (call_return_cached create now message temperature ti w res price
              Hh Ht Hret) as [Hc Hmn].
  set (w1 := (call create now message temperature ti w).2) in *.
  split.
  - intros create' now' ti'.
    erewrite (call_path_eq create' now' message temperature ti'
                (reset w1).2).
    2: { apply (path_hit _ _ _ _ _ _ res).
         - apply cacheable_true; [|done]. cbn. unfold entering_history. cbn.
           by destruct (ti' || interactive (self w1)).
         - cbn. by rewrite Hmn. }
    done.
  - intros Hoff create' now'.
    erewrite (call_path_eq create' now' message temperature false w1).
    2: { apply (path_hit _ _ _ _ _ _ res).
         - apply cacheable_true; [|done]. unfold entering_history.
           by rewrite Hoff.
         - by rewrite Hmn. }
    done.
Qed.

Lemma call_memoized_witness :
  (call provider_down "20230801130000" "hi" 0 false
     (call provider_ok "20230801120000" "hi" 0 false
        (example_world "gpt-4" false old_exchange ∅)).2).1 =
  Return ("hello", 0%Q).
Proof.
  destruct (call_memoized provider_ok "20230801120000" "hi" 0 false
              (example_world "gpt-4" false old_exchange ∅) "hello"
              (3.0e-5 * tokens 3 + 6.0e-5 * tokens 5)%Q) as [_ Hoff].
  - reflexivity.
  - reflexivity.
  - vm_compute. reflexivity.
  - apply (Hoff eq_refl provider_down "20230801130000").
Defined.

(** ** What a call asks of the provider *)

(** X6. A call consults the provider at most once, with the current model
    name, the transcript it starts from followed by the user entry, and the
    temperature: two providers that agree on this one request give the same
    outcome and the same final state. *)
Theorem call_provider_request create create' now message temperature ti w :
  create (model_name (self w))
    (entering_history ti (self w) ++ [mk_turn "user" message])%list
    temperature =
  create' (model_name (self w))
    (entering_history ti (self w) ++ [mk_turn "user" message])%list
    temperature ->
  call create now message temperature ti w =
  call create' now message temperature ti w.
Proof.
  intros Hsame. symmetry. apply call_path_eq.
  call_cases create now message temperature ti w.
  - by apply path_hit.
  - apply path_provider_error; [done | congruence].
  - eapply path_price_error; [done | congruence | done].
  - subst c. eapply (path_billed create'); [done | congruence | done].
Qed.

Lemma call_provider_request_witness :
  call provider_ok "20230801120000" "hi" 0 false
    (example_world "gpt-4" true [] ∅) =
  call (fun model messages _ =>
          if decide (messages = [mk_turn "user" "hi"])
          then Return example_reply else Raise (ProviderError model))
    "20230801120000" "hi" 0 false (example_world "gpt-4" true [] ∅).
Proof.
  apply (call_provider_request provider_ok
           (fun model messages _ =>
              if decide (messages = [mk_turn "user" "hi"])
              then Return example_reply else Raise (ProviderError model))
           "20230801120000" "hi" 0 false (example_world "gpt-4" true [] ∅)).
  vm_compute. reflexivity.
Defined.

(** X7. The cache is bypassed when the temperature is not 0 or the exchange
    starts from a non-empty transcript: the provider is consulted even if
    the key is cached, its error or its answer decides the outcome, and the
    cache is left as it was. *)
Theorem call_bypasses_cache create now message temperature ti w :
  ~ (temperature == 0)%Q \/ entering_history ti (self w) <> [] ->
  cache (self (call create now message temperature ti w).2) =
    cache (self w) /\
  (call create now message temperature ti w).1 =
    match create (model_name (self w))
            (entering_history ti (self w) ++ [mk_turn "user" message])%list
            temperature with
    | Raise e => Raise e
    | Return comp =>
        match price_of (self w) (tokens (prompt_tokens comp))
                (tokens (completion_tokens comp)) with
        | Return price => Return (content comp, price)
        | Raise e => Raise e
        end
    end.
Proof.
  intros Hno. apply cacheable_false in Hno.
  call_cases create now message temperature ti w; cbn.
  - congruence.
  - split; [done|]. by match goal with H : create _ _ _ = _ |- _ =>
                         rewrite H end.
  - rewrite Hno. split; [done|].
    repeat match goal with H : _ = _ |- _ => rewrite H end. done.
  - subst c. unfold billed, recorded. rewrite Hno.
    split; [by destruct ti|].
    repeat match goal with H : _ = _ |- _ => rewrite H end. done.
Qed.

Lemma call_bypasses_cache_witness :
  (call provider_down "20230801120000" "hi" 0.7 false
     (example_world "gpt-4" true [] hi_cache)).1 =
  Raise (ProviderError "timeout").
Proof.
  destruct (call_bypasses_cache provider_down "20230801120000" "hi" 0.7 false
              (example_world "gpt-4" true [] hi_cache)) as [_ Hout].
  - left. intros H. vm_compute in H. discriminate H.
  - exact Hout.
Defined.

(** ** What a call writes to disk *)

(** X8. A call writes to disk only when it went to the provider, was
    billed and returned, and [auto_saveload] is on; then the file
    [savedir/now.pkl] holds the cache as the call leaves it and every other
    file is untouched.  A call answered from the cache, a call that raises,
    and any call with [auto_saveload] off leave the disk as it was. *)
Theorem call_disk create now message temperature ti w :
  (auto_saveload (self w) = false ->
   disk (call create now message temperature ti w).2 = disk w) /\
  (forall e,
      (call create now message temperature ti w).1 = Raise e ->
      disk (call create now message temperature ti w).2 = disk w) /\
  (forall res,
      cacheable ti (self w) temperature = true ->
      cache (self w) !! (model_name (self w), message) = Some res ->
      disk (call create now message temperature ti w).2 = disk w) /\
  (forall res price,
      auto_saveload (self w) = true ->
      cache_miss ti (self w) message temperature ->
      (call create now message temperature ti w).1 = Return (res, price) ->
      disk_read (save_path (self w) now)
        (disk (call create now message temperature ti w).2) =
        Some (Pickled (PyDict
                (cache (self (call create now message temperature ti w).2)))) /\
      forall q, q <> save_path (self w) now ->
        disk_read q (disk (call create now message temperature ti w).2) =
        disk_read q (disk w)).
Proof.
  assert (Hsv : forall c res price,
             savedir (billed ti c message temperature res price) = savedir c /\
             auto_saveload (billed ti c message temperature res price) =
               auto_saveload c).
  { intros c res price. unfold billed, recorded.
    by destruct ti, (cacheable _ _ _). }
  split; [|split; [|split]].
  - intros Hasl. call_cases create now message temperature ti w; cbn;
      try done.
    subst c. unfold saved_disk.
    destruct (Hsv (self w) (content comp) price) as [_ ->]. by rewrite Hasl.
  - intros e. call_cases create now message temperature ti w; cbn; done.
  - intros res Hc Hl. unfold cache_miss in *.
    call_cases create now message temperature ti w; cbn; try done.
    match goal with H : cacheable _ _ _ = true -> _ |- _ =>
      specialize (H Hc) end. congruence.
  - intros res price Hasl Hmiss. unfold cache_miss in Hmiss.
    call_cases create now message temperature ti w; cbn; try done.
    + match goal with H : cacheable _ _ _ = true |- _ =>
        specialize (Hmiss H) end. congruence.
    + intros _. subst c. unfold saved_disk, save_path.
      destruct (Hsv (self w) (content comp) price0) as [-> ->].
      rewrite Hasl. split.
      * apply disk_read_write_eq.
      * intros q Hq. by apply disk_read_write_ne.
Qed.

Lemma call_disk_witness :
  disk (call provider_ok "20230801120000" "hi" 0 false
          (example_world "gpt-4" true [] ∅)).2 = [].
Proof.
  destruct (call_disk provider_ok "20230801120000" "hi" 0 false
              (example_world "gpt-4" true [] ∅)) as [Hoff _].
  apply Hoff. reflexivity.
Defined.

(** ** The [interactive] flag on every path *)

(** X9. Without [temporary_interactive] no call changes [interactive],
    whether it returns or raises.  With [temporary_interactive=True] a call
    that raises, because the provider fails or the price lookup fails,
    leaves [interactive] on. *)
Theorem call_interactive_flag create now message temperature w :
  interactive (self (call create now message temperature false w).2) =
    interactive (self w) /\
  (forall e,
      (call create now message temperature true w).1 = Raise e ->
      interactive (self (call create now message temperature true w).2) = true).
Proof.
  split.
  - call_cases create now message temperature false w; cbn; try done.
    + by destruct (cacheable _ _ _).
    + subst c. unfold billed, recorded. by destruct (cacheable _ _ _).
  - intros e. call_cases create now message temperature true w; cbn;
      try done.
    by destruct (cacheable _ _ _).
Qed.

Lemma call_interactive_flag_witness :
  interactive
    (self (call provider_down "20230801120000" "hi" 0 true
             (example_world "gpt-4" false [] ∅)).2) = true.
Proof.
  destruct (call_interactive_flag provider_down "20230801120000" "hi" 0
              (example_world "gpt-4" false [] ∅)) as [_ Hon].
  apply (Hon (ProviderError "timeout")). reflexivity.
Defined.

(** ** A model without a price *)



(** ** Configuration *)

(** X11. No operation, whether it returns or raises, changes the API key,
    the model names, the pricing table, the save directory or the
    [auto_saveload] flag. *)
Theorem run_op_keeps_configuration o w :
  api_key (self (run_op o w)) = api_key (self w) /\
  model_name (self (run_op o w)) = model_name (self w) /\
  embedding_model_name (self (run_op o w)) = embedding_model_name (self w) /\
  pricing_data (self (run_op o w)) = pricing_data (self w) /\
  savedir (self (run_op o w)) = savedir (self w) /\
  auto_saveload (self (run_op o w)) = auto_saveload (self w).
Proof. destruct (run_op_config o w). by repeat split. Qed.

(** ** Summarising an interactive conversation *)

Lemma enter_interactive c : interactive c = true -> enter false c = c.
Proof.
  intros Hi. unfold enter, entering_history. rewrite Hi. cbn.
  destruct c; cbn in *. by subst.
Qed.

(** X12. [summarize_and_clear_history] in interactive mode, on a transcript
    that is not empty: the provider gets the whole transcript followed by
    the summary request.  If it raises, nothing has changed.  If it answers
    and the price lookup succeeds, the transcript becomes exactly the
    request and the summary, the fee grows by the price and the cache is
    untouched.  If the price lookup fails, the exception passes through and
    the transcript keeps every old entry plus the new pair. *)
Theorem summarize_interactive (create : chat_api) now w :
  interactive (self w) = true ->
  chat_history (self w) <> [] ->
  match create (model_name (self w))
          (chat_history (self w) ++ [mk_turn "user" summary_request])%list 0%Q
  with
  | Raise e => summarize_and_clear_history create now w = (Raise e, w)
  | Return comp =>
      match price_of (self w) (tokens (prompt_tokens comp))
              (tokens (completion_tokens comp)) with
      | Raise e =>
          (summarize_and_clear_history create now w).1 = Raise e /\
          chat_history (self (summarize_and_clear_history create now w).2) =
            (chat_history (self w) ++
               [mk_turn "user" summary_request;
                mk_turn "assistant" (content comp)])%list
      | Return price =>
          (summarize_and_clear_history create now w).1 = Return tt /\
          chat_history (self (summarize_and_clear_history create now w).2) =
            [mk_turn "user" summary_request;
             mk_turn "assistant" (content comp)] /\
          cache (self (summarize_and_clear_history create now w).2) =
            cache (self w) /\
          fee (self (summarize_and_clear_history create now w).2) =
            (fee (self w) + price)%Q
      end
  end.
Proof.
  intros Hi Hne.
  assert (Hent : entering_history false (self w) = chat_history (self w)).
  { unfold entering_history. by rewrite Hi. }
  assert (Hc : cacheable false (self w) 0 = false).
  { apply cacheable_false. right. by rewrite Hent. }
  assert (Hmiss : cacheable false (self w) 0 = true ->
                  cache (self w) !! (model_name (self w), summary_request) = None)
    by (rewrite Hc; discriminate).
  rewrite summarize_eq.
  destruct (create _ _ _) as [comp|e] eqn:Hcr.
  - destruct (price_of _ _ _) as [price|e] eqn:Hp.
    + rewrite (call_path_eq _ _ _ _ _ _ _
                 (path_billed create now summary_request 0 false w comp price
                    Hmiss ltac:(by rewrite Hent) Hp)).
      unfold billed, recorded. rewrite Hc, Hent. cbn.
      split; [done|]. split; [apply last_two_app_pair | done].
    + rewrite (call_path_eq _ _ _ _ _ _ _
                 (path_price_error create now summary_request 0 false w comp e
                    Hmiss ltac:(by rewrite Hent) Hp)).
      unfold recorded. rewrite Hc, Hent. by cbn.
  - rewrite (call_path_eq _ _ _ _ _ _ _
               (path_provider_error create now summary_request 0 false w e
                  Hmiss ltac:(by rewrite Hent) )).
    by rewrite enter_interactive, world_eta.
Qed.

Lemma summarize_interactive_witness :
  summarize_and_clear_history provider_down "20230801120000"
    (example_world "gpt-4" true old_exchange hi_cache) =
  (Raise (ProviderError "timeout"),
   example_world "gpt-4" true old_exchange hi_cache).
Proof.
  apply (summarize_interactive provider_down "20230801120000"
           (example_world "gpt-4" true old_exchange hi_cache)).
  - reflexivity.
  - cbn. discriminate.
Defined.

(** ** Printing the transcript *)

Lemma paired_entries h :
  paired h -> Forall (fun t => exists r c, t = mk_turn r c) h.
Proof.
  induction 1 as [|h m r _ IH]; [constructor|].
  apply Forall_app. split; [done|].
  repeat constructor; by eexists _, _.
Qed.

Lemma to_str_eq w :
  to_str w =
  (speech_strs <- map_m print_speech (chat_history (self w));;
   ret (String.concat (newline ++ newline) speech_strs)) w.
Proof. reflexivity. Qed.

Lemma print_speech_mk_turn r c w :
  print_speech (mk_turn r c) w = (Return (render_turn r c), w).
Proof.
  unfold print_speech, getitem.
  by rewrite (proj2 (mk_turn_is_turn r c)), mk_turn_content.
Qed.

Lemma map_m_entries h w :
  Forall (fun t => exists r c, t = mk_turn r c) h ->
  exists strs,
    map_m print_speech h w = (Return strs, w) /\
    Forall2 rendered h strs.
Proof.
  induction 1 as [|t h (r & c & ->) _ (strs & Hrun & Hstrs)].
  - exists []. split; [done | constructor].
  - exists (render_turn r c :: strs). split.
    + cbn [map_m]. unfold bind. by rewrite print_speech_mk_turn, Hrun.
    + constructor; [|done]. exists r, c.
      by rewrite (proj2 (mk_turn_is_turn r c)), mk_turn_content.
Qed.

Lemma to_str_entries w :
  Forall (fun t => exists r c, t = mk_turn r c) (chat_history (self w)) ->
  exists strs,
    to_str w = (Return (String.concat (newline ++ newline) strs), w) /\
    Forall2 rendered (chat_history (self w)) strs.
Proof.
  intros Hall. destruct (map_m_entries _ w Hall) as (strs & Hrun & Hstrs).
  exists strs. split; [|done]. rewrite to_str_eq. unfold bind.
  by rewrite Hrun.
Qed.

(** X13. In every state of a session [to_str] returns, never raising
    [KeyError], and changes nothing: the text is the entries of the
    transcript, each printed as "> role: " and, on the next line, its
    content, joined by blank lines. *)
Theorem to_str_session w :
  reachable w ->
  exists strs,
    to_str w = (Return (String.concat (newline ++ newline) strs), w) /\
    Forall2 rendered (chat_history (self w)) strs.
Proof.
  intros Hw. by apply to_str_entries, paired_entries, reachable_paired.
Qed.

Lemma to_str_session_witness :
  exists strs,
    to_str (run_op (OpCall provider_ok "20230801120000" "hi" 0 false)
              (example_world "gpt-4" true [] ∅)) =
      (Return (String.concat (newline ++ newline) strs),
       run_op (OpCall provider_ok "20230801120000" "hi" 0 false)
         (example_world "gpt-4" true [] ∅)) /\
    Forall2 rendered
      (chat_history
         (self (run_op (OpCall provider_ok "20230801120000" "hi" 0 false)
                  (example_world "gpt-4" true [] ∅)))) strs.
Proof.
  apply (to_str_session
           (run_op (OpCall provider_ok "20230801120000" "hi" 0 false)
              (example_world "gpt-4" true [] ∅))).
  apply reach_op. apply fresh_reachable.
Defined.

(** X14. An entry without the key 'role' makes [to_str] raise
    [KeyError 'role'], whatever else the transcript holds after it, and
    the state is unchanged; entries before it must print. *)
Theorem to_str_missing_role w h1 t h2 :
  chat_history (self w) = (h1 ++ t :: h2)%list ->
  Forall (fun t => exists r c, t = mk_turn r c) h1 ->
  t !! "role" = None ->
  to_str w = (Raise (KeyError "role"), w).
Proof.
  intros Hh Hall Hno. rewrite to_str_eq, Hh. clear Hh.
  assert (Hm : map_m print_speech (h1 ++ t :: h2)%list w =
               (Raise (KeyError "role"), w)).
  { induction Hall as [|t0 h (r & c & ->) _ IH]; cbn [app map_m].
    - unfold bind, print_speech, getitem. by rewrite Hno.
    - unfold bind. by rewrite print_speech_mk_turn, IH. }
  unfold bind. by rewrite Hm.
Qed.

Lemma to_str_missing_role_witness :
  to_str (example_world "gpt-4" true
            [mk_turn "user" "q"; <["content" := "a"]> ∅] ∅) =
  (Raise (KeyError "role"),
   example_world "gpt-4" true
     [mk_turn "user" "q"; <["content" := "a"]> ∅] ∅).
Proof.
  apply (to_str_missing_role
           (example_world "gpt-4" true
              [mk_turn "user" "q"; <["content" := "a"]> ∅] ∅)
           [mk_turn "user" "q"] (<["content" := "a"]> ∅) []).
  - reflexivity.
  - repeat constructor. exists "user", "q". reflexivity.
  - reflexivity.
Defined.

(** ** Prices *)

Lemma price_of_chat_rates c :
  pricing_data c = init_pricing_data ->
  model_name c = "gpt-3.5-turbo" \/ model_name c = "gpt-4" ->
  exists rate_in rate_out,
    (0 < rate_in)%Q /\ (0 < rate_out)%Q /\
    forall i o, price_of c i o = Return (rate_in * i + rate_out * o)%Q.
Proof.
  intros Hpd Hm. unfold price_of. rewrite Hpd, init_pricing_lookup.
  destruct Hm as [-> | ->]; cbn; eexists _, _; by repeat split.
Qed.

Lemma len_nonneg s : (0 <= len s)%Q.
Proof.
  unfold len. rewrite <- (Zle_Qle 0). lia.
Qed.

Lemma len_mono s1 s2 :
  (code_points s1 <= code_points s2)%nat -> (len s1 <= len s2)%Q.
Proof. intros H. unfold len. rewrite <- Zle_Qle. lia. Qed.

(** [len] counts characters, not bytes: the summary request has 16
    characters in 48 bytes. *)
Lemma summary_request_code_points :
  code_points summary_request = 16%nat /\
  String.length summary_request = 48%nat.
Proof. split; reflexivity. Qed.

Lemma linear_price_mono (a b i o i' o' : Q) :
  (0 <= a)%Q -> (0 <= b)%Q -> (i <= i')%Q -> (o <= o')%Q ->
  (a * i + b * o <= a * i' + b * o')%Q.
Proof.
  intros Ha Hb Hi Ho. apply Qplus_le_compat.
  - rewrite !(Qmult_comm a). by apply Qmult_le_compat_r.
  - rewrite !(Qmult_comm b). by apply Qmult_le_compat_r.
Qed.

(** X15. [calculate_price] in a session with one of the two chat models:
    it returns, changes nothing, charges nothing for no tokens, is never
    negative for token counts that are not, and grows (weakly) with each
    token count. *)
Theorem calculate_price_monotone w i o i' o' :
  reachable w ->
  model_name (self w) = "gpt-3.5-turbo" \/ model_name (self w) = "gpt-4" ->
  (0 <= i)%Q -> (0 <= o)%Q -> (i <= i')%Q -> (o <= o')%Q ->
  exists p p' p0,
    calculate_price i o w = (Return p, w) /\
    calculate_price i' o' w = (Return p', w) /\
    calculate_price 0 0 w = (Return p0, w) /\
    (p0 == 0)%Q /\ (0 <= p)%Q /\ (p <= p')%Q.
Proof.
  intros Hw Hm Hi Ho Hii Hoo.
  pose proof (reachable_pricing w Hw) as Hpd.
  destruct (price_of_chat_rates (self w) Hpd Hm) as (a & b & Ha & Hb & Hp).
  apply Qlt_le_weak in Ha, Hb.
  eexists _, _, _. rewrite !calculate_price_eq, !Hp.
  split; [done|]. split; [done|]. split; [done|]. split; [|split].
  - ring.
  - apply (Qplus_le_compat 0 _ 0); by apply Qmult_le_0_compat.
  - by apply linear_price_mono.
Qed.

Lemma calculate_price_monotone_witness :
  exists p p' p0,
    calculate_price 10 20 (example_world "gpt-4" true [] ∅) =
      (Return p, example_world "gpt-4" true [] ∅) /\
    calculate_price 30 20 (example_world "gpt-4" true [] ∅) =
      (Return p', example_world "gpt-4" true [] ∅) /\
    calculate_price 0 0 (example_world "gpt-4" true [] ∅) =
      (Return p0, example_world "gpt-4" true [] ∅) /\
    (p0 == 0)%Q /\ (0 <= p)%Q /\ (p <= p')%Q.
Proof.
  apply (calculate_price_monotone (example_world "gpt-4" true [] ∅)
           10 20 30 20).
  - apply fresh_reachable.
  - right. reflexivity.
  - vm_compute. discriminate.
  - vm_compute. discriminate.
  - vm_compute. discriminate.
  - vm_compute. discriminate.
Defined.

(** X16. [estimate_price] in a session with one of the two chat models
    returns a strictly positive estimate, even for the empty message (the
    20 output tokens it always assumes), changes nothing, and never gives a
    message of more characters (code points, as [len] counts them) a
    smaller estimate. *)
Theorem estimate_price_monotone w m m' :
  reachable w ->
  model_name (self w) = "gpt-3.5-turbo" \/ model_name (self w) = "gpt-4" ->
  (code_points m <= code_points m')%nat ->
  exists p p',
    estimate_price m w = (Return p, w) /\
    estimate_price m' w = (Return p', w) /\
    (0 < p)%Q /\ (p <= p')%Q.
Proof.
  intros Hw Hm Hlen.
  pose proof (reachable_pricing w Hw) as Hpd.
  destruct (price_of_chat_rates (self w) Hpd Hm) as (a & b & Ha & Hb & Hp).
  pose proof (len_nonneg m) as H0. pose proof (len_mono m m' Hlen) as Hmm.
  eexists _, _. unfold estimate_price. rewrite !calculate_price_eq, !Hp.
  split; [done|]. split; [done|]. split.
  - apply (Qlt_le_trans _ (a * 0 + b * (0 * 1.1 + 20))%Q).
    + assert (E : (a * 0 + b * (0 * 1.1 + 20) == b * 20)%Q) by ring.
      rewrite E. apply Qmult_lt_0_compat; [done | by vm_compute].
    + apply linear_price_mono; try (by apply Qlt_le_weak); [done|].
      apply Qplus_le_compat; [|apply Qle_refl].
      by apply Qmult_le_compat_r.
  - apply linear_price_mono; try (by apply Qlt_le_weak); [done|].
    apply Qplus_le_compat; [|apply Qle_refl].
    by apply Qmult_le_compat_r.
Qed.

Lemma estimate_price_monotone_witness :
  exists p p',
    estimate_price "ああ" (example_world "gpt-4" true [] ∅) =
      (Return p, example_world "gpt-4" true [] ∅) /\
    estimate_price "abcde" (example_world "gpt-4" true [] ∅) =
      (Return p', example_world "gpt-4" true [] ∅) /\
    (0 < p)%Q /\ (p <= p')%Q.
Proof.
  apply (estimate_price_monotone (example_world "gpt-4" true [] ∅)
           "ああ" "abcde").
  - apply fresh_reachable.
  - right. reflexivity.
  - vm_compute. lia.
Defined.

(** ** Embeddings *)

Lemma embedding_path_eq create q w out :
  embedding_path create q w out -> embedding create q w = out.
Proof.
  intros H. pose proof (embedding_paths create q w) as H'.
  remember (embedding create q w) as o eqn:E. clear E.
  destruct H, H';
    repeat match goal with
           | p := _ |- _ => subst p
           end;
    repeat match goal with
           | H1 : ?x = _, H2 : ?x = _ |- _ => rewrite H1 in H2; simplify_eq
           end;
    done.
Qed.

Lemma replace_newline_clean s : has_newline (replace_newline s) = false.
Proof.
  induction s as [|c s IH]; cbn; [done|].
  rewrite IH, orb_false_r.
  destruct (Ascii.eqb c "010") eqn:Hc; [done | exact Hc].
Qed.

Lemma replace_newline_id s : has_newline s = false -> replace_newline s = s.
Proof.
  induction s as [|c s IH]; cbn; [done|].
  intros [Hc Hs]%orb_false_iff. by rewrite Hc, IH.
Qed.

(** X17. [replace("\n", " ")] as [embedding] applies it: the result has no
    newline and the same length, a text without newline is unchanged, and
    so applying it twice is applying it once. *)
Theorem replace_newline_spec s :
  has_newline (replace_newline s) = false /\
  String.length (replace_newline s) = String.length s /\
  (has_newline s = false -> replace_newline s = s) /\
  replace_newline (replace_newline s) = replace_newline s.
Proof.
  split; [apply replace_newline_clean|]. split; [|split].
  - induction s as [|c s IH]; cbn; [done|]. by rewrite IH.
  - apply replace_newline_id.
  - apply replace_newline_id, replace_newline_clean.
Qed.

Lemma replace_newline_spec_witness :
  replace_newline "no newline here" = "no newline here".
Proof.
  destruct (replace_newline_spec "no newline here") as (_ & _ & Hid & _).
  apply Hid. reflexivity.
Defined.

(** X18. What [embedding] asks of the provider: one input for a string,
    one input per item for an iterable, in order, none of them containing a
    newline, together with the embedding model name.  Two providers that
    agree on this one request give the same outcome and final state. *)
Theorem embedding_request create create' q w :
  Forall (fun s => has_newline s = false) (embedding_inputs q) /\
  embedding_inputs q =
    match q with
    | QStr s => [replace_newline s]
    | QIter items => replace_newline <$> items
    end /\
  (create (embedding_inputs q) (embedding_model_name (self w)) =
   create' (embedding_inputs q) (embedding_model_name (self w)) ->
   embedding create q w = embedding create' q w).
Proof.
  split; [|split].
  - destruct q as [s|items]; cbn.
    + repeat constructor. apply replace_newline_clean.
    + induction items as [|s items IH]; cbn; constructor;
        [apply replace_newline_clean | done].
  - by destruct q.
  - intros Hsame. symmetry. apply embedding_path_eq.
    pose proof (embedding_paths create q w) as H.
    remember (embedding create q w) as out. destruct H.
    + apply emb_provider_error. congruence.
    + eapply emb_rate_error; [|done]. by rewrite <- Hsame.
    + eapply emb_ragged; [|done..]. by rewrite <- Hsame.
    + subst price. eapply emb_billed; [|done..]. by rewrite <- Hsame.
Qed.

Lemma embedding_request_witness :
  embedding one_vector (QStr ("two" ++ newline ++ "lines")) (example_world "gpt-4" true [] ∅) =
  embedding (fun inputs _ =>
               if decide (inputs = ["two lines"])
               then Return {| total_tokens := 4; data := [[0.5; 0.25]%Q] |}
               else Raise (ProviderError "unexpected input"))
    (QStr ("two" ++ newline ++ "lines")) (example_world "gpt-4" true [] ∅).
Proof.
  destruct (embedding_request one_vector
              (fun inputs _ =>
                 if decide (inputs = ["two lines"])
                 then Return {| total_tokens := 4; data := [[0.5; 0.25]%Q] |}
                 else Raise (ProviderError "unexpected input"))
              (QStr ("two" ++ newline ++ "lines")) (example_world "gpt-4" true [] ∅)) as (_ & _ & Hsame).
  apply Hsame. vm_compute. reflexivity.
Defined.

(** X19. [embedding] charges before it indexes.  When the provider replies
    with no vector at all and the rate lookup succeeds, a string query
    raises [IndexError] and an iterable query returns the empty array, and
    in both cases the fee has grown by the price of the reply; nothing else
    has changed. *)
Theorem embedding_empty_reply create q w res rate :
  create (embedding_inputs q) (embedding_model_name (self w)) = Return res ->
  data res = [] ->
  embedding_rate (self w) = Return rate ->
  embedding create q w =
  (match q with
   | QStr _ => Raise IndexError
   | QIter _ => Return (Vecs [], (tokens (total_tokens res) * rate)%Q)
   end,
   {| self := set_fee (fee (self w) + tokens (total_tokens res) * rate)%Q
                (self w);
      disk := disk w |}).
Proof.
  intros Hcr Hd Hrate. apply embedding_path_eq.
  eapply (emb_billed create q w res rate); [done | done | by rewrite Hd |].
  rewrite Hd. by destruct q.
Qed.

Lemma embedding_empty_reply_witness :
  embedding no_vector (QStr "hi") (example_world "gpt-4" true [] ∅) =
  (Raise IndexError,
   {| self := set_fee (0 + tokens 4 * 1.0e-7)%Q (example_chat "gpt-4" true [] ∅);
      disk := [] |}).
Proof.
  apply (embedding_empty_reply no_vector (QStr "hi")
           (example_world "gpt-4" true [] ∅)
           {| total_tokens := 4; data := [] |} 1.0e-7%Q).
  - reflexivity.
  - reflexivity.
  - reflexivity.
Defined.

Lemma embedding_rate_lookup c :
  pricing_data c = init_pricing_data ->
  embedding_rate c =
  if decide (embedding_model_name c = "text-embedding-ada-002")
  then Return 1.0e-7%Q
  else if decide (embedding_model_name c = "gpt-4") then Return 3.0e-5%Q
  else if decide (embedding_model_name c = "gpt-3.5-turbo")
  then Return 1.5e-6%Q
  else Raise (KeyError (embedding_model_name c)).
Proof.
  intros Hpd. unfold embedding_rate. rewrite Hpd, init_pricing_lookup.
  by repeat case_decide.
Qed.

(** X20. [embedding] in a session.  Only the fee can change, whatever
    happens.  When the provider replies, with the default embedding model:
    if the vectors of the reply have one length the fee grows by 1.0e-7 per
    token of the reply; if they differ in length the array cannot be built,
    the call raises [ValueError] before the fee is touched and leaves the
    state unchanged.  With an embedding model name that the pricing table
    does not know the call raises [KeyError] for that name, after the
    provider was consulted, and leaves the state unchanged. *)
Theorem embedding_session create q w :
  reachable w ->
  (exists f,
      (embedding create q w).2 =
      {| self := set_fee f (self w); disk := disk w |}) /\
  (forall res,
      create (embedding_inputs q) (embedding_model_name (self w)) =
        Return res ->
      (embedding_model_name (self w) = "text-embedding-ada-002" ->
       rectangular (data res) = true ->
       fee (self (embedding create q w).2) =
         (fee (self w) + tokens (total_tokens res) * 1.0e-7)%Q) /\
      (embedding_model_name (self w) = "text-embedding-ada-002" ->
       rectangular (data res) = false ->
       embedding create q w = (Raise ValueError, w)) /\
      (embedding_model_name (self w) <> "text-embedding-ada-002" ->
       embedding_model_name (self w) <> "gpt-4" ->
       embedding_model_name (self w) <> "gpt-3.5-turbo" ->
       embedding create q w =
         (Raise (KeyError (embedding_model_name (self w))), w))).
Proof.
  intros Hw. pose proof (reachable_pricing w Hw) as Hpd.
  pose proof (embedding_rate_lookup (self w) Hpd) as Hrate.
  split.
  - pose proof (embedding_paths create q w) as H.
    remember (embedding create q w) as out. destruct H; cbn.
    + exists (fee (self w)). by destruct w as [[] ?].
    + exists (fee (self w)). by destruct w as [[] ?].
    + exists (fee (self w)). by destruct w as [[] ?].
    + by eexists.
  - intros res Hcr. split; [|split].
    + intros Hada Hrect. rewrite decide_True in Hrate by done.
      erewrite embedding_path_eq;
        [|by eapply (emb_billed create q w res 1.0e-7%Q)]. done.
    + intros Hada Hrect. rewrite decide_True in Hrate by done.
      apply embedding_path_eq. by eapply emb_ragged.
    + intros H1 H2 H3. rewrite !decide_False in Hrate by done.
      apply embedding_path_eq. by eapply emb_rate_error.
Qed.

Lemma embedding_session_witness :
  fee (self (embedding one_vector (QIter ["a"; "b"])
               (example_world "gpt-4" true [] ∅)).2) =
    (0 + tokens 4 * 1.0e-7)%Q /\
  embedding ragged_vectors (QIter ["a"; "b"])
    (example_world "gpt-4" true [] ∅) =
    (Raise ValueError, example_world "gpt-4" true [] ∅).
Proof.
  split.
  - destruct (embedding_session one_vector (QIter ["a"; "b"])
                (example_world "gpt-4" true [] ∅)
                (fresh_reachable "gpt-4" true)) as [_ Hreply].
    destruct (Hreply {| total_tokens := 4; data := [[0.5; 0.25]%Q] |} eq_refl)
      as (Hada & _ & _).
    apply Hada; reflexivity.
  - destruct (embedding_session ragged_vectors (QIter ["a"; "b"])
                (example_world "gpt-4" true [] ∅)
                (fresh_reachable "gpt-4" true)) as [_ Hreply].
    destruct (Hreply {| total_tokens := 4;
                        data := [[0.5; 0.25]%Q; [0.5]%Q] |} eq_refl)
      as (_ & Hragged & _).
    apply Hragged; reflexivity.
Defined.

(** ** Construction *)

Lemma init_shards key model emb itv d shards :
  read_shards (glob_pkl "chatgpt" d) d = Some shards ->
  init key model emb itv true d =
  (Return tt,
   {| self := fresh_chat key model emb itv true (merge_all ∅ shards);
      disk := d |}).
Proof.
  intros Hread. unfold init. cbn [when]. unfold load. run.
  by rewrite (for_each_load_merges _ _ shards).
Qed.

(** X21. The constructor.  Without [auto_saveload] it always returns.  With
    it, it returns exactly when every [*.pkl] file of the directory
    [chatgpt] is a pickled dictionary, and raises otherwise.  The object it
    returns has fee 0, an empty transcript, the standard pricing table and,
    as cache, the merge of those files in listing order (empty without
    [auto_saveload]); the disk is untouched. *)
Theorem init_outcome key model emb itv (asl : bool) d :
  match (if asl then read_shards (glob_pkl "chatgpt" d) d else Some []) with
  | Some shards =>
      init key model emb itv asl d =
      (Return tt,
       {| self := fresh_chat key model emb itv asl (merge_all ∅ shards);
          disk := d |})
  | None => exists e, (init key model emb itv asl d).1 = Raise e
  end.
Proof.
  destruct asl; [|done].
  destruct (read_shards _ d) as [shards|] eqn:Hread.
  - by apply init_shards.
  - unfold init. cbn [when]. unfold load. run.
    by apply for_each_load_raises.
Qed.

(** ** From one session to the next *)

Lemma glob_pkl_write_new dir p f d :
  in_glob dir p = true ->
  glob_pkl dir d = [] ->
  glob_pkl dir (disk_write p f d) = [p].
Proof.
  intros Hp. unfold glob_pkl.
  induction d as [|[q g] d IH]; cbn.
  - by rewrite Hp.
  - destruct (in_glob dir q) eqn:Hq; cbn; [done|].
    intros Hd. destruct (decide (q = p)) as [->|Hne]; [congruence|].
    cbn. rewrite Hq. by apply IH.
Qed.

(** X22. An answer survives a restart.  Start with [auto_saveload] on a
    disk with no [*.pkl] file in [chatgpt], using one of the two chat
    models, and ask one question at temperature 0 that the provider
    answers: the call returns the answer and saves the cache.  Any object
    constructed afterwards on that disk for the same model, with
    [auto_saveload], answers the same question with the same text at price
    0, whatever the provider would do. *)
Theorem cache_survives_restart key emb itv (create : chat_api) now message
    model comp d :
  model = "gpt-3.5-turbo" \/ model = "gpt-4" ->
  glob_pkl "chatgpt" d = [] ->
  create model [mk_turn "user" message] 0%Q = Return comp ->
  exists w0 price w1,
    init key model emb itv true d = (Return tt, w0) /\
    call create now message 0 false w0 = (Return (content comp, price), w1) /\
    forall key' emb' itv', exists w2,
      init key' model emb' itv' true (disk w1) = (Return tt, w2) /\
      forall create' now' ti',
        (call create' now' message 0 ti' w2).1 = Return (content comp, 0%Q).
Proof.
  intros Hm Hglob Hcr.
  pose (c0 := fresh_chat key model emb itv true ∅).
  destruct (price_of_chat_rates c0 eq_refl Hm) as (a & b & _ & _ & Hp).
  set (price := (a * tokens (prompt_tokens comp) +
                 b * tokens (completion_tokens comp))%Q).
  set (p := {| parent := "chatgpt"; name := now ++ ".pkl" |}).
  set (ca := <[(model, message) := content comp]> (∅ : gmap (string * string) string)).
  exists {| self := c0; disk := d |}, price.
  eexists. split; [|split].
  - apply (init_shards key model emb itv d []). by rewrite Hglob.
  - apply call_path_eq.
    apply (path_billed create now message 0 false
             {| self := c0; disk := d |} comp price);
      [intros _; apply lookup_empty | | apply Hp].
    cbn [self]. replace (entering_history false c0) with
      (@nil (gmap string string)); [exact Hcr|].
    unfold entering_history. cbn. by destruct itv.
  - intros key' emb' itv'. cbn [disk].
    assert (Hin : in_glob "chatgpt" p = true).
    { unfold in_glob, p. cbn [parent name]. by rewrite ends_with_app. }
    assert (Hd : saved_disk
                   (billed false c0 message 0 (content comp) price) now d =
                 disk_write p (Pickled (PyDict ca)) d).
    { unfold saved_disk, billed, recorded, cacheable, entering_history.
      cbn. by destruct itv. }
    cbn [self]. rewrite Hd. eexists. split.
    + apply (init_shards _ _ _ _ _ [ca]).
      rewrite (glob_pkl_write_new _ _ _ _ Hin Hglob). cbn.
      by rewrite disk_read_write_eq.
    + intros create' now' ti'.
      erewrite call_path_eq.
      2: { apply (path_hit _ _ _ _ _ _ (content comp)).
           - unfold cacheable, entering_history. cbn.
             by destruct (ti' || itv').
           - cbn. unfold ca. rewrite (right_id_L ∅ (∪)).
             apply lookup_insert_eq. }
      done.
Qed.

Lemma cache_survives_restart_witness :
  exists w0 price w1,
    init "sk" "gpt-4" "text-embedding-ada-002" true true [] =
      (Return tt, w0) /\
    call provider_ok "20230801120000" "hi" 0 false w0 =
      (Return ("hello", price), w1) /\
    forall key' emb' itv', exists w2,
      init key' "gpt-4" emb' itv' true (disk w1) = (Return tt, w2) /\
      forall create' now' ti',
        (call create' now' "hi" 0 ti' w2).1 = Return ("hello", 0%Q).
Proof.
  apply (cache_survives_restart "sk" "text-embedding-ada-002" true
           provider_ok "20230801120000" "hi" "gpt-4" example_reply []).
  - right. reflexivity.
  - reflexivity.
  - reflexivity.
Defined.

(** ** Facts about the module loader *)

Module CodingToolsFacts.
Import CodingTools.

Section Facts.
Context {state fspath spec module : Type}.
Context (L : library state fspath spec module).

Lemma andthen_inr {A B} (m : @action state A) (k : A -> @action state B) s a s' :
  m s = (inr a, s') -> andthen m k s = k a s'.
Proof. intros H. unfold andthen. by rewrite H. Qed.

Lemma andthen_inl {A B} (m : @action state A) (k : A -> @action state B) s e s' :
  m s = (inl e, s') -> andthen m k s = (inl e, s').
Proof. intros H. unfold andthen. by rewrite H. Qed.

Lemma andthen_returns {A B} (m : @action state A) (k : A -> @action state B) s b s' :
  andthen m k s = (inr b, s') ->
  exists a s1, m s = (inr a, s1) /\ k a s1 = (inr b, s').
Proof.
  unfold andthen. destruct (m s) as [[e|a] s1]; [done|]. eauto.
Qed.

Lemma fst_inr {A} (x : (error + A) * state) a :
  x.1 = inr a -> exists s', x = (inr a, s').
Proof. destruct x as [[e|a'] s']; cbn; intros; simplify_eq. by eexists. Qed.

Lemma create_module_from_path_ok (H : never_raises L) p s :
  exists m s', create_module_from_path L p s = (inr m, s').
Proof.
  unfold create_module_from_path.
  destruct (nr_resolve L H p s) as [q [s1 Hq]%fst_inr].
  rewrite (andthen_inr _ _ _ _ _ Hq).
  match goal with |- context [spec_from_file_location L ?n q] =>
    destruct (nr_spec L H n q s1) as [sp [s2 Hsp]%fst_inr];
    rewrite (andthen_inr _ _ _ _ _ Hsp);
    destruct (nr_module L H sp s2) as [m [s3 Hm]%fst_inr];
    rewrite (andthen_inr _ _ _ _ _ Hm);
    destruct (fst_inr _ _ (nr_sys L H n m s3)) as [s4 Hs];
    rewrite (andthen_inr _ _ _ _ _ Hs);
    destruct (fst_inr _ _ (nr_exec L H sp m s4)) as [s5 He];
    rewrite (andthen_inr _ _ _ _ _ He)
  end.
  by eexists _, _.
Qed.

(** One round of the loop while [new_module] is unbound: it passes, or
    it raises [UnboundLocalError]. *)
Lemma load_item_unbound (H : never_raises L) item s :
  (load_item L None item s).1 = inr tt \/
  (load_item L None item s).1 = inl (UnboundLocalError "new_module").
Proof.
  unfold load_item.
  destruct (nr_is_file L H item s) as [f [s1 Hf]%fst_inr].
  rewrite (andthen_inr _ _ _ _ _ Hf).
  destruct (f && _ && _).
  - destruct (create_module_from_path_ok H item s1) as (m & s2 & Hm).
    rewrite (andthen_inr _ _ _ _ _ Hm). by right.
  - destruct (nr_is_dir L H item s1) as [d [s2 Hd]%fst_inr].
    rewrite (andthen_inr _ _ _ _ _ Hd). destruct d.
    + destruct (nr_exists L H (joinpath L item "__init__.py") s2)
        as [b [s3 Hb]%fst_inr].
      rewrite (andthen_inr _ _ _ _ _ Hb).
      destruct b; cbn [andb]; [|by left].
      destruct (create_module_from_path_ok H
                  (joinpath L item "__init__.py") s3) as (m & s4 & Hm).
      rewrite (andthen_inr _ _ _ _ _ Hm). by right.
    + by left.
Qed.

Lemma load_items_unbound (H : never_raises L) items s :
  (load_items L None items s).1 = inr tt \/
  (load_items L None items s).1 = inl (UnboundLocalError "new_module").
Proof.
  revert s. induction items as [|item items IH]; intros s; cbn;
    [by left|].
  unfold andthen.
  destruct (load_item_unbound H item s) as [Hok | Herr];
    destruct (load_item L None item s) as [[e|[]] s1]; cbn in *;
    simplify_eq; [apply IH | by right].
Qed.

(** X23. [create_module_from_dir] returns only for a directory that has
    an [__init__.py], and what it returns is the module created from
    that file: the loop over the directory never rebinds it. *)
Theorem create_module_from_dir_returns_package base s m s' :
  create_module_from_dir L base s = (inr m, s') ->
  exists s1 s2 s3,
    is_dir L base s = (inr true, s1) /\
    exists_ L (joinpath L base "__init__.py") s1 = (inr true, s2) /\
    create_module_from_path L (joinpath L base "__init__.py") s2 =
      (inr m, s3).
Proof.
  unfold create_module_from_dir.
  intros (d & s1 & Hd & H1)%andthen_returns.
  destruct d; [|done]. cbn [negb] in H1.
  apply andthen_returns in H1 as (e & s2 & He & H2).
  apply andthen_returns in H2 as (nm & s3 & Hnm & H3).
  apply andthen_returns in H3 as (items & s4 & _ & H4).
  apply andthen_returns in H4 as ([] & s5 & _ & H5).
  destruct nm as [m'|]; [|done]. unfold local, pure in H5. simplify_eq.
  destruct e; [|done].
  apply andthen_returns in Hnm as (m'' & s3' & Hm & Hp).
  unfold pure in Hp. simplify_eq. by eexists _, _, _.
Qed.

(** X24. On a directory without [__init__.py] the variable
    [new_module] is never bound: even when no library call raises and
    every file has an import spec, [create_module_from_dir] raises
    [UnboundLocalError], at the first file or package it tries to attach
    or at the final [return]. *)
Theorem create_module_from_dir_without_init base s s1 s2 :
  never_raises L ->
  is_dir L base s = (inr true, s1) ->
  exists_ L (joinpath L base "__init__.py") s1 = (inr false, s2) ->
  (create_module_from_dir L base s).1 =
    inl (UnboundLocalError "new_module").
Proof.
  intros H Hd He. unfold create_module_from_dir.
  rewrite (andthen_inr _ _ _ _ _ Hd). cbn [negb].
  rewrite (andthen_inr _ _ _ _ _ He).
  rewrite (andthen_inr _ _ _ None s2) by done.
  destruct (nr_iterdir _ H base s2) as [items [s3 Hi]%fst_inr].
  rewrite (andthen_inr _ _ _ _ _ Hi).
  destruct (load_items_unbound H items s3) as [Hok | Herr].
  - apply fst_inr in Hok as [s4 Hok].
    by rewrite (andthen_inr _ _ _ _ _ Hok).
  - unfold andthen.
    destruct (load_items L None items s3) as [[e|[]] s4]; cbn in Herr;
      by simplify_eq.
Qed.

End Facts.

Lemma toy_never_raises b : never_raises (toy_library b).
Proof. split; intros; cbn; unfold pure; cbn; by eauto. Qed.

Lemma create_module_from_dir_returns_package_witness :
  exists s1 s2 s3,
    is_dir (toy_library true) "pkg" [] = (inr true, s1) /\
    exists_ (toy_library true) "pkg/__init__.py" s1 = (inr true, s2) /\
    create_module_from_path (toy_library true) "pkg/__init__.py" s2 =
      (inr "pkg.py", s3).
Proof.
  apply (create_module_from_dir_returns_package (toy_library true)
           "pkg" [] "pkg.py" ["a.py"; "pkg.py"]).
  vm_compute. reflexivity.
Defined.

Lemma create_module_from_dir_without_init_witness :
  (create_module_from_dir (toy_library false) "pkg" []).1 =
  inl (UnboundLocalError "new_module").
Proof.
  apply (create_module_from_dir_without_init (toy_library false)
           "pkg" [] [] []).
  - apply toy_never_raises.
  - reflexivity.
  - reflexivity.
Defined.

End CodingToolsFacts.
